(** * ParkingApp: the reservation service and the notification dispatcher

    A shallow embedding of [parking-reservation/main.py.py] and
    [send-email/main.py].  Python dictionaries are [gmap]s, the set of used
    spots is a [gset], and the side effects of a handler (Firestore, Pub/Sub,
    Cloud Storage, Gmail) are threaded through a small state-and-exception
    monad.  The outcome of every call to a managed service is supplied by an
    explicit environment record, so that both the successful and the failing
    runs of a handler can be stated.  The [print] calls only log and are left
    out; the one expression among their arguments that can raise, the
    subscript [send_result['id']], is kept. *)

From Stdlib Require Import Ascii.
From stdpp Require Import base option list gmap strings pretty countable.

Local Open Scope string_scope.
Local Open Scope Z_scope.
Local Open Scope list_scope.

(** ** Python values *)

(** The scalar values that reach the handlers from a JSON body, a query
    string or a stored document: [None], booleans, integers and strings.
    JSON arrays, JSON objects and floating-point numbers are not modelled. *)
Inductive value : Type :=
  | VNone
  | VBool (b : bool)
  | VInt (n : Z)
  | VStr (s : string).

Global Instance value_eq_dec : EqDecision value.
Proof. solve_decision. Defined.

Definition value_to_sum (v : value) : unit + (bool + (Z + string)) :=
  match v with
  | VNone => inl tt
  | VBool b => inr (inl b)
  | VInt n => inr (inr (inl n))
  | VStr s => inr (inr (inr s))
  end.

Definition value_of_sum (x : unit + (bool + (Z + string))) : value :=
  match x with
  | inl _ => VNone
  | inr (inl b) => VBool b
  | inr (inr (inl n)) => VInt n
  | inr (inr (inr s)) => VStr s
  end.

Global Instance value_countable : Countable value.
Proof.
  refine (inj_countable' value_to_sum value_of_sum _).
  intros []; reflexivity.
Defined.

(** Python truthiness, as used by [not x], [all([...])] and [if x:]. *)
Definition truthy (v : value) : bool :=
  match v with
  | VNone => false
  | VBool b => b
  | VInt n => negb (n =? 0)
  | VStr s => negb (String.eqb s "")
  end.

(** [dict.get(key)]: a missing key reads as [None]. *)
Definition dict_get (d : gmap string value) (key : string) : value :=
  default VNone (d !! key).

(** [str(v)], as an f-string formats a value. *)
Definition str (v : value) : string :=
  match v with
  | VNone => "None"
  | VBool true => "True"
  | VBool false => "False"
  | VInt n => pretty n
  | VStr s => s
  end.

(** [x in xs] for a list of strings [xs]: only a string compares equal to a
    string. *)
Definition value_in (v : value) (xs : list string) : bool :=
  bool_decide (v ∈ VStr <$> xs).

(** [s.endswith(suffix)]. *)
Definition endswith (s suffix : string) : bool :=
  let n := String.length s in
  let m := String.length suffix in
  (m <=? n)%nat && String.eqb (String.substring (n - m) m s) suffix.

(** ** Exceptions and the handler monad *)

(** [KeyError] and [AttributeError] are raised by the handlers' own
    expressions, [DecodeError] by the decoding of a queue message, and
    [UpstreamError] stands for whatever a failing managed service raises. *)
Inductive exn : Type :=
  | KeyError (key : value)
  | AttributeError (msg : string)
  | DecodeError (msg : string)
  | UpstreamError (msg : string).

(** [repr(v)], up to the escaping of quotes inside a string. *)
Definition repr (v : value) : string :=
  match v with
  | VStr s => "'" +:+ s +:+ "'"
  | _ => str v
  end.

(** [str(e)]. *)
Definition str_exn (e : exn) : string :=
  match e with
  | KeyError key => repr key
  | AttributeError msg => msg
  | DecodeError msg => msg
  | UpstreamError msg => msg
  end.

(** A computation over a state [S] either returns a value or raises; the
    effects performed before an exception is raised are kept. *)
Definition M (S A : Type) : Type := S → S * (exn + A).

Definition raise {S A} (e : exn) : M S A := λ st, (st, inl e).

Definition try_except {S A} (body : M S A) (handler : exn → M S A) : M S A :=
  λ st, match body st with
        | (st', inl e) => handler e st'
        | (st', inr a) => (st', inr a)
        end.

Global Instance M_ret {S} : MRet (M S) := λ A a st, (st, inr a).

Global Instance M_bind {S} : MBind (M S) := λ A B f m st,
  match m st with
  | (st', inl e) => (st', inl e)
  | (st', inr a) => f a st'
  end.

(** [d[key]] on a dictionary with string keys: a missing key raises
    [KeyError], and a key that is not a string is never present. *)
Definition subscript {S A} (d : gmap string A) (key : value) : M S A :=
  match key with
  | VStr k =>
      match d !! k with
      | Some a => mret a
      | None => raise (KeyError key)
      end
  | _ => raise (KeyError key)
  end.

(** ** The reservation service *)

Module Reservation.

(** A Firestore document and a Pub/Sub message are dictionaries. *)
Abbreviation document := (gmap string value).

(** The [reservations] collection (document id to document) and the messages
    published on the topic, oldest first. *)
Record state : Type := State {
  db : gmap string document;
  topic : list document
}.

(** What the managed services do during one invocation: whether the query,
    the document write and the publish raise (and with which message), the
    identifier Firestore generates for a new document, and the clock. *)
Record env : Type := Env {
  query_fault : option string;
  set_fault : option string;
  publish_fault : option string;
  auto_id : string;
  now : string
}.

(** [json.dumps(data)], published on the topic; [future.result()] raises when
    the publish failed.  The returned message id is not used by the caller. *)
Definition publish_email (e : env) (to subject message : value) : M state unit :=
  let data : document :=
    {[ "to" := to; "subject" := subject; "message" := message ]} in
  λ st,
    match publish_fault e with
    | Some msg => (st, inl (UpstreamError msg))
    | None => (State (db st) (topic st ++ [data]), inr tt)
    end.

Definition zone_limits : gmap string Z :=
  {[ "A" := 55; "B" := 52; "C" := 45 ]}.

(** [.where('zone', '==', zone).where('date', '==', date)] on one document. *)
Definition matches (zone date : value) (d : document) : bool :=
  bool_decide (d !! "zone" = Some zone) &&
  bool_decide (d !! "date" = Some date).

(** [db.collection('reservations').where(...).where(...).stream()]. *)
Definition stream (e : env) (zone date : value) : M state (list document) :=
  λ st,
    match query_fault e with
    | Some msg => (st, inl (UpstreamError msg))
    | None => (st, inr (filter (λ d, matches zone date d = true)
                               (map_to_list (db st)).*2))
    end.

(** One turn of the loop that collects the used spots. *)
Definition collect (used_spots : gset value) (reservation_data : document)
    : gset value :=
  match reservation_data !! "spot" with
  | Some spot => {[ spot ]} ∪ used_spots
  | None => used_spots
  end.

(** [f"{zone}{i}"]. *)
Definition spot_name (zone : value) (i : Z) : string := str zone +:+ pretty i.

(** The [try] block of [get_available_spots]. *)
Definition get_available_spots_try (e : env) (zone date : value)
    : M state (list string) :=
  reservations_ref ← stream e zone date;
  let used_spots := foldl collect ∅ reservations_ref in
  limit ← subscript zone_limits zone;
  let all_spots := spot_name zone <$> seqZ 1 limit in
  let available_spots :=
    filter (λ spot, VStr spot ∉ used_spots) all_spots in
  mret available_spots.

(** The [except] clause answers any error with the empty list. *)
Definition get_available_spots (e : env) (zone date : value)
    : M state (list string) :=
  try_except (get_available_spots_try e zone date) (λ _, mret []).

(** The HTTP request, as far as [reserve] reads it: [request.args] and the
    result of [request.get_json()], which is [None] here whenever the body
    does not decode to a JSON object. *)
Record request : Type := Request {
  method : string;
  path : string;
  args : gmap string string;
  json : option (gmap string value)
}.

Inductive body : Type :=
  | NoBody
  | ErrorBody (error : string)
  | SpotsBody (availableSpots : list string) (zone date : value)
  | SuccessBody (spot : value) (reservationId : string).

Record response : Type := Response {
  resp_body : body;
  resp_status : Z;
  resp_headers : gmap string string
}.

Definition headers : gmap string string :=
  {[ "Access-Control-Allow-Origin" := "*";
     "Access-Control-Allow-Methods" := "POST, GET, OPTIONS";
     "Access-Control-Allow-Headers" := "Content-Type" ]}.

(** [request.args.get(key)]. *)
Definition args_get (r : request) (key : string) : value :=
  from_option VStr VNone (args r !! key).

(** [request.get_json()] followed by the first [.get]: without a JSON object
    there is nothing to call [get] on. *)
Definition get_json (r : request) : M state (gmap string value) :=
  match json r with
  | Some request_data => mret request_data
  | None => raise (AttributeError "'NoneType' object has no attribute 'get'")
  end.

(** [doc_ref.set(reservation_data)] on the document [id]. *)
Definition document_set (e : env) (id : string) (data : document)
    : M state unit :=
  λ st,
    match set_fault e with
    | Some msg => (st, inl (UpstreamError msg))
    | None => (State (<[id := data]> (db st)) (topic st), inr tt)
    end.

Definition nl : string := String "010"%char "".

Definition confirmation (zone spot date : value) (id : string) : string :=
  "Dear Customer," +:+ nl +:+ nl +:+
  "Your parking reservation has been confirmed:" +:+ nl +:+
  "- Zone: " +:+ str zone +:+ nl +:+
  "- Spot Number: " +:+ str spot +:+ nl +:+
  "- Date: " +:+ str date +:+ nl +:+
  "- Reservation ID: " +:+ id +:+ nl +:+ nl +:+
  "Best regards," +:+ nl +:+
  "The ParkingApp Team".

(** The spot check of a POST: either the response of an early [return], or
    the spot that goes on to be written. *)
Definition choose_spot (spot : value) (available_spots : list string)
    : response + value :=
  if truthy spot then
    if negb (value_in spot available_spots) then
      inl (Response (ErrorBody "Selected spot is no longer available")
             400 headers)
    else inr spot
  else
    match available_spots with
    | [] =>
        inl (Response
               (ErrorBody "No available spots in this zone for selected date")
               400 headers)
    | first :: _ => inr (VStr first)
    end.

Definition reservation_data (e : env) (zone spot date email : value)
    : document :=
  {[ "zone" := zone; "spot" := spot; "date" := date; "email" := email;
     "created_at" := VStr (now e); "status" := VStr "confirmed" ]}.

Definition reserve_post (e : env) (r : request) : M state response :=
  try_except
    (request_data ← get_json r;
     let zone := dict_get request_data "zone" in
     let date := dict_get request_data "date" in
     let email := dict_get request_data "email" in
     let spot := dict_get request_data "spot" in
     if negb (truthy zone && truthy date && truthy email) then
       mret (Response (ErrorBody "Missing required fields") 400 headers)
     else if negb (value_in zone ["A"; "B"; "C"]) then
       mret (Response (ErrorBody "Invalid zone") 400 headers)
     else
       available_spots ← get_available_spots e zone date;
       match choose_spot spot available_spots with
       | inl early => mret early
       | inr spot =>
           let doc_id := auto_id e in
           document_set e doc_id (reservation_data e zone spot date email);;
           publish_email e email (VStr "Parking Reservation Confirmation")
             (VStr (confirmation zone spot date doc_id));;
           mret (Response (SuccessBody spot doc_id) 200 headers)
       end)
    (λ ex, mret (Response (ErrorBody (str_exn ex)) 500 headers)).

Definition reserve_get (e : env) (r : request) : M state response :=
  let zone := args_get r "zone" in
  let date := args_get r "date" in
  if negb (truthy zone) || negb (truthy date) then
    mret (Response (ErrorBody "Missing zone or date parameter") 400 headers)
  else
    try_except
      (available_spots ← get_available_spots e zone date;
       mret (Response (SpotsBody available_spots zone date) 200 headers))
      (λ ex, mret (Response (ErrorBody (str_exn ex)) 500 headers)).

Definition reserve (e : env) (r : request) : M state response :=
  if String.eqb (method r) "OPTIONS" then
    mret (Response NoBody 204 headers)
  else if String.eqb (method r) "GET" && endswith (path r) "/available-spots"
  then reserve_get e r
  else if String.eqb (method r) "POST" then reserve_post e r
  else mret (Response (ErrorBody "Method not allowed") 405 headers).

End Reservation.

(** ** The notification dispatcher *)

Module Dispatcher.

(** The unpickled token object, as far as [send_email] reads it. *)
Record credentials : Type := Credentials {
  token : string;
  expired : bool;
  refresh_token : value
}.

(** The event delivered by Pub/Sub.  [decoded] is what
    [json.loads(base64.b64decode(data['message']['data']).decode('utf-8'))]
    evaluates to, or [None] when one of these steps raises or the result is
    not a JSON object. *)
Record cloud_event : Type := CloudEvent {
  decoded : option (gmap string value)
}.

Record mime : Type := Mime {
  mime_text : string;
  mime_to : value;
  mime_from : string;
  mime_subject : value
}.

(** The calls the handler makes to the outside, in order. *)
Inductive call : Type :=
  | Download
  | Refresh (creds : credentials)
  | Send (creds : option credentials) (message : mime).

(** What the outside does during one invocation: the object pickled in the
    bucket ([None] for a falsy one) or the failure of the download, the
    failure of the refresh or the token it yields, and the answer of the mail
    API to a submission. *)
Record env : Type := Env {
  download_fault : option string;
  stored : option credentials;
  refresh_fault : option string;
  fresh_token : string;
  mail_api : option credentials → mime → string + gmap string value
}.

Definition decode (ev : cloud_event) : M (list call) (gmap string value) :=
  match decoded ev with
  | Some email_data => mret email_data
  | None => raise (DecodeError "cannot decode the Pub/Sub message")
  end.

(** [pickle.loads(blob.download_as_bytes())]. *)
Definition download (w : env) : M (list call) (option credentials) :=
  λ tr,
    match download_fault w with
    | Some msg => (tr ++ [Download], inl (UpstreamError msg))
    | None => (tr ++ [Download], inr (stored w))
    end.

(** [creds.refresh(Request())] updates the credentials in place. *)
Definition refresh (w : env) (creds : credentials)
    : M (list call) credentials :=
  λ tr,
    match refresh_fault w with
    | Some msg => (tr ++ [Refresh creds], inl (UpstreamError msg))
    | None =>
        (tr ++ [Refresh creds],
         inr (Credentials (fresh_token w) false (refresh_token creds)))
    end.

Definition type_name (v : value) : string :=
  match v with
  | VNone => "NoneType"
  | VBool _ => "bool"
  | VInt _ => "int"
  | VStr _ => "str"
  end.

(** [MIMEText(message)] calls [message.encode]; the three headers are then
    stored as they are. *)
Definition render (to subject message : value) : M (list call) mime :=
  match message with
  | VStr text => mret (Mime text to "parkingbotapp@gmail.com" subject)
  | _ =>
      raise (AttributeError
               ("'" +:+ type_name message +:+
                "' object has no attribute 'encode'"))
  end.

(** [service.users().messages().send(userId='me', body=...).execute()]. *)
Definition send (w : env) (creds : option credentials) (message : mime)
    : M (list call) (gmap string value) :=
  λ tr,
    match mail_api w creds message with
    | inl msg => (tr ++ [Send creds message], inl (UpstreamError msg))
    | inr send_result => (tr ++ [Send creds message], inr send_result)
    end.

(** [if creds and creds.expired and creds.refresh_token: creds.refresh(...)]. *)
Definition refresh_if_expired (w : env) (creds : option credentials)
    : M (list call) (option credentials) :=
  match creds with
  | Some c =>
      if expired c && truthy (refresh_token c) then
        c' ← refresh w c; mret (Some c')
      else mret creds
  | None => mret creds
  end.

(** The handler returns nothing; its last step is the subscript
    [send_result['id']] that the closing [print] formats.  The [except]
    clause logs and raises the exception again. *)
Definition send_email (w : env) (ev : cloud_event) : M (list call) unit :=
  try_except
    (email_data ← decode ev;
     to ← subscript email_data (VStr "to");
     subject ← subscript email_data (VStr "subject");
     message ← subscript email_data (VStr "message");
     creds ← download w;
     creds ← refresh_if_expired w creds;
     mime_message ← render to subject message;
     send_result ← send w creds mime_message;
     subscript send_result (VStr "id");;
     mret tt)
    (λ ex, raise ex).

End Dispatcher.

(** * Statements: vocabulary and sample data *)

Import Reservation.

(** ** Vocabulary *)

(** The spots generated for a zone of the given capacity: [Z1 .. Zlimit]. *)
Definition universe (zone : value) (limit : Z) : list string :=
  spot_name zone <$> seqZ 1 limit.

(** The zone codes a POST accepts. *)
Definition valid_zone (zone : value) : Prop :=
  zone = VStr "A" ∨ zone = VStr "B" ∨ zone = VStr "C".

(** A stored reservation for [(zone, date)] carries [spot]. *)
Definition reserved (st : state) (zone date spot : value) : Prop :=
  ∃ id d, db st !! id = Some d ∧ d !! "zone" = Some zone ∧
          d !! "date" = Some date ∧ d !! "spot" = Some spot.

(** A stored reservation for [(zone, date)] with status [confirmed]
    carries [spot]. *)
Definition confirmed (st : state) (zone date spot : value) : Prop :=
  ∃ id d, db st !! id = Some d ∧ d !! "zone" = Some zone ∧
          d !! "date" = Some date ∧ d !! "spot" = Some spot ∧
          d !! "status" = Some (VStr "confirmed").

(** The set the loop of [get_available_spots] builds on a successful query. *)
Definition used (st : state) (zone date : value) : gset value :=
  foldl collect ∅
    (filter (λ d, matches zone date d = true) (map_to_list (db st)).*2).

(** No stored document matches the zone and date. *)
Definition no_reservations (st : state) (zone date : value) : Prop :=
  ∀ id d, db st !! id = Some d →
          ¬ (d !! "zone" = Some zone ∧ d !! "date" = Some date).

(** The query, the write and the publish all go through. *)
Definition services_up (e : env) : Prop :=
  query_fault e = None ∧ set_fault e = None ∧ publish_fault e = None.

Definition A1_to_A55 : list string :=
  [ "A1"; "A2"; "A3"; "A4"; "A5"; "A6"; "A7"; "A8"; "A9"; "A10";
    "A11"; "A12"; "A13"; "A14"; "A15"; "A16"; "A17"; "A18"; "A19";
    "A20"; "A21"; "A22"; "A23"; "A24"; "A25"; "A26"; "A27"; "A28";
    "A29"; "A30"; "A31"; "A32"; "A33"; "A34"; "A35"; "A36"; "A37";
    "A38"; "A39"; "A40"; "A41"; "A42"; "A43"; "A44"; "A45"; "A46";
    "A47"; "A48"; "A49"; "A50"; "A51"; "A52"; "A53"; "A54"; "A55" ].

(** A store in which every spot of the universe is taken for the zone and
    date: one confirmed reservation per spot, filed under the spot name. *)
Definition fully_booked (zone date : value) (limit : Z) : state :=
  State
    (list_to_map
       ((λ spot, (spot, {[ "zone" := zone; "date" := date;
                           "spot" := VStr spot;
                           "status" := VStr "confirmed" ]} : document))
          <$> universe zone limit))
    [].

(** The dictionary [publish_email] serialises. *)
Definition email_payload (to subject message : value) : document :=
  {[ "to" := to; "subject" := subject; "message" := message ]}.

(** How the handler ends once the message is submitted: with the error of
    the mail API, or with the subscript [send_result['id']]. *)
Definition mail_outcome (w : Dispatcher.env)
    (creds : option Dispatcher.credentials) (m : Dispatcher.mime)
    : exn + unit :=
  match Dispatcher.mail_api w creds m with
  | inl msg => inl (UpstreamError msg)
  | inr send_result =>
      match send_result !! "id" with
      | Some _ => inr tt
      | None => inl (KeyError (VStr "id"))
      end
  end.

(** The availability property as the specification words it: the result is
    a duplicate-free subsequence of the universe, and the spots of the
    universe missing from it are exactly the spots of the confirmed
    reservations stored for the zone and date. *)
Definition complement_is_confirmed (e : env) (st : state)
    (zone date : value) (limit : Z) : Prop :=
  ∃ available,
    get_available_spots e zone date st = (st, inr available) ∧
    NoDup available ∧
    available `sublist_of` universe zone limit ∧
    ∀ spot, spot ∈ universe zone limit ∧ spot ∉ available ↔
            confirmed st zone date (VStr spot).

(** The caller is answered with the success response. *)
Definition success_answer (out : state * (exn + response)) : Prop :=
  ∃ spot id, out.2 = inr (Response (SuccessBody spot id) 200 headers).


(** ** Sample data *)

(** Environments: every service answers; the query, or the publish, raises. *)
Definition all_up : env :=
  Env None None None "Kx3vQ0aTq8ZrLm1N2bYc" "2024-05-30T10:00:00".

Definition cancelled_A1 : document :=
  {[ "zone" := VStr "A"; "spot" := VStr "A1"; "date" := VStr "2024-06-01";
     "email" := VStr "u@example.com";
     "created_at" := VStr "2024-05-29T09:00:00";
     "status" := VStr "cancelled" ]}.

Definition one_cancelled : state := State {[ "r1" := cancelled_A1 ]} [].


(** A mail API that turns down a submission made with expired credentials. *)
Definition strict_mail (creds : option Dispatcher.credentials)
    (m : Dispatcher.mime) : string + gmap string value :=
  match creds with
  | Some c => if Dispatcher.expired c then inl "401 invalid credentials"
              else inr {[ "id" := VStr "18f3a2b4c5d6e7f8" ]}
  | None => inl "401 missing credentials"
  end.


Definition confirmation_event : Dispatcher.cloud_event :=
  Dispatcher.CloudEvent
    (Some (email_payload (VStr "u@example.com")
             (VStr "Parking Reservation Confirmation") (VStr "Dear Customer,"))).

Definition query_down : env :=
  Env (Some "503 firestore unavailable") None None
    "Kx3vQ0aTq8ZrLm1N2bYc" "2024-05-30T10:00:00".

Definition publish_down : env :=
  Env None None (Some "503 pubsub unavailable")
    "Kx3vQ0aTq8ZrLm1N2bYc" "2024-05-30T10:00:00".

Definition later : env :=
  Env None None None "b7Wq2LsD0pXr9TzUe4Hn" "2024-05-30T10:05:00".

Definition post (fields : gmap string value) : request :=
  Request "POST" "/reserve" ∅ (Some fields).

Definition ask_any : gmap string value :=
  {[ "zone" := VStr "A"; "date" := VStr "2024-06-01";
     "email" := VStr "u@example.com" ]}.

Definition ask_A1 : gmap string value := <[ "spot" := VStr "A1" ]> ask_any.

Definition ask_zone_D : gmap string value :=
  {[ "zone" := VStr "D"; "date" := VStr "2024-06-01";
     "email" := VStr "u@example.com" ]}.

Definition ask_no_email : gmap string value :=
  {[ "zone" := VStr "D"; "date" := VStr "2024-06-01" ]}.

Definition get_zone_D : request :=
  Request "GET" "/reserve/available-spots"
    {[ "zone" := "D"; "date" := "2024-06-01" ]} None.

Definition zone_B_only : state :=
  State {[ "r0" := {[ "zone" := VStr "B"; "spot" := VStr "B1";
                      "date" := VStr "2024-06-01";
                      "email" := VStr "v@example.com";
                      "created_at" := VStr "2024-05-29T09:00:00";
                      "status" := VStr "confirmed" ]} ]} [].

Definition refreshable : Dispatcher.credentials :=
  Dispatcher.Credentials "ya29.old" true (VStr "1//refresh").

Definition refreshable_world : Dispatcher.env :=
  Dispatcher.Env None (Some refreshable) None "ya29.new" strict_mail.


(** ** Vocabulary of the further properties *)

(** A POST passed both validations, and the spot check on the list computed
    for its zone and date settled on [spot]. *)
Definition accepted (e : env) (r : request) (st : state)
    (fields : gmap string value) (available : list string) (spot : value)
    : Prop :=
  method r = "POST" ∧ json r = Some fields ∧
  valid_zone (dict_get fields "zone") ∧
  truthy (dict_get fields "date") = true ∧
  truthy (dict_get fields "email") = true ∧
  get_available_spots e (dict_get fields "zone") (dict_get fields "date") st
    = (st, inr available) ∧
  choose_spot (dict_get fields "spot") available = inr spot.

(** The collection after the write of an accepted POST. *)
Definition written (e : env) (st : state) (fields : gmap string value)
    (spot : value) : gmap string document :=
  <[auto_id e := reservation_data e (dict_get fields "zone") spot
                   (dict_get fields "date") (dict_get fields "email")]>
    (db st).

(** The message an accepted POST publishes. *)
Definition notification (e : env) (fields : gmap string value) (spot : value)
    : document :=
  email_payload (dict_get fields "email")
    (VStr "Parking Reservation Confirmation")
    (VStr (confirmation (dict_get fields "zone") spot
             (dict_get fields "date") (auto_id e))).

(** A response other than the success response of a POST: the empty 204, an
    error with status 400, 405 or 500, or the 200 listing of a GET. *)
Definition quiet (resp : response) : Prop :=
  resp_headers resp = headers ∧
  ((resp_body resp = NoBody ∧ resp_status resp = 204) ∨
   (∃ error, resp_body resp = ErrorBody error ∧
             (resp_status resp = 400 ∨ resp_status resp = 405 ∨
              resp_status resp = 500)) ∨
   (∃ spots zone date, resp_body resp = SpotsBody spots zone date ∧
                       resp_status resp = 200)).

(** The status codes the handler answers with. *)
Definition statuses : list Z := [200; 204; 400; 405; 500].


Definition put_request : request :=
  Request "PUT" "/reserve" ∅ (Some ask_any).


(** No two stored documents carry the same zone, date and spot. *)
Definition no_double_booking (st : state) : Prop :=
  ∀ id1 id2 d1 d2 zone date spot,
    db st !! id1 = Some d1 → db st !! id2 = Some d2 →
    d1 !! "zone" = Some zone → d1 !! "date" = Some date →
    d1 !! "spot" = Some spot →
    d2 !! "zone" = Some zone → d2 !! "date" = Some date →
    d2 !! "spot" = Some spot →
    id1 = id2.

(** A document as the handler writes them: a configured zone, a spot of
    that zone's universe, and the status [confirmed]. *)
Definition well_formed (d : document) : Prop :=
  ∃ z limit s,
    d !! "zone" = Some (VStr z) ∧ zone_limits !! z = Some limit ∧
    d !! "spot" = Some (VStr s) ∧ s ∈ universe (VStr z) limit ∧
    d !! "status" = Some (VStr "confirmed").

Definition all_well_formed (st : state) : Prop :=
  ∀ id d, db st !! id = Some d → well_formed d.

(** The handler invoked on one request after the other, each with its own
    behaviour of the services; the responses are dropped. *)
Fixpoint serve (calls : list (env * request)) (st : state) : state :=
  match calls with
  | [] => st
  | (e, r) :: rest => serve rest (reserve e r st).1
  end.

Definition nothing_stored : state := State ∅ [].


Definition get_listing : request :=
  Request "GET" "/reserve/available-spots"
    {[ "zone" := "A"; "date" := "2024-06-01" ]} None.

Definition get_elsewhere : request :=
  Request "GET" "/reserve/spots"
    {[ "zone" := "A"; "date" := "2024-06-01" ]} None.

Definition ask_A56 : gmap string value := <[ "spot" := VStr "A56" ]> ask_any.

(** The calls and the outcome of the credential steps of the dispatcher:
    the download and, for an expired credential that carries a refresh
    token, the refresh. *)
Definition credential_steps (w : Dispatcher.env)
    : list Dispatcher.call * (exn + option Dispatcher.credentials) :=
  match Dispatcher.download_fault w with
  | Some msg => ([Dispatcher.Download], inl (UpstreamError msg))
  | None =>
      match Dispatcher.stored w with
      | Some c =>
          if Dispatcher.expired c && truthy (Dispatcher.refresh_token c) then
            match Dispatcher.refresh_fault w with
            | Some msg =>
                ([Dispatcher.Download; Dispatcher.Refresh c],
                 inl (UpstreamError msg))
            | None =>
                ([Dispatcher.Download; Dispatcher.Refresh c],
                 inr (Some (Dispatcher.Credentials (Dispatcher.fresh_token w)
                              false (Dispatcher.refresh_token c))))
            end
          else ([Dispatcher.Download], inr (Some c))
      | None => ([Dispatcher.Download], inr None)
      end
  end.

(** The fields [send_email] reads from a decoded message. *)
Definition message_fields : list string := ["to"; "subject"; "message"].

(** The email rendered from the three fields. *)
Definition rendered (to subject : value) (text : string) : Dispatcher.mime :=
  Dispatcher.Mime text to "parkingbotapp@gmail.com" subject.

Definition unexpired : Dispatcher.credentials :=
  Dispatcher.Credentials "ya29.valid" false (VStr "1//refresh").

(** A mail API that accepts every submission. *)
Definition lenient_mail (creds : option Dispatcher.credentials)
    (m : Dispatcher.mime) : string + gmap string value :=
  inr {[ "id" := VStr "18f3a2b4c5d6e7f8" ]}.

Definition unexpired_world : Dispatcher.env :=
  Dispatcher.Env None (Some unexpired) None "ya29.new" lenient_mail.

Definition bucket_down : Dispatcher.env :=
  Dispatcher.Env (Some "503 storage unavailable") (Some unexpired) None
    "ya29.new" lenient_mail.

Definition event_without_subject : Dispatcher.cloud_event :=
  Dispatcher.CloudEvent
    (Some {[ "to" := VStr "u@example.com"; "message" := VStr "Dear Customer," ]}).

Definition event_with_number : Dispatcher.cloud_event :=
  Dispatcher.CloudEvent
    (Some (email_payload (VStr "u@example.com")
             (VStr "Parking Reservation Confirmation") (VInt 42))).

(** The message does not decode, or one of its three fields is missing. *)
Definition malformed (ev : Dispatcher.cloud_event) : Prop :=
  Dispatcher.decoded ev = None ∨
  ∃ email_data key,
    Dispatcher.decoded ev = Some email_data ∧
    key ∈ message_fields ∧ email_data !! key = None.

(** The sequences of calls one run of the dispatcher can make: the download
    first, then at most one refresh, then at most one submission. *)
Definition one_attempt (calls : list Dispatcher.call) : Prop :=
  calls = [] ∨ calls = [Dispatcher.Download] ∨
  (∃ c, calls = [Dispatcher.Download; Dispatcher.Refresh c]) ∨
  (∃ creds m, calls = [Dispatcher.Download; Dispatcher.Send creds m]) ∨
  (∃ c creds m,
     calls = [Dispatcher.Download; Dispatcher.Refresh c;
              Dispatcher.Send creds m]).

(** * Properties *)

(** ** The monad on concrete outcomes *)

Lemma bind_ok {S A B} (m : M S A) (f : A → M S B) st st' a :
  m st = (st', inr a) → (m ≫= f) st = f a st'.
Proof. intros H. unfold mbind, M_bind. by rewrite H. Qed.

Lemma try_ok {S A} (m : M S A) h st st' a :
  m st = (st', inr a) → try_except m h st = (st', inr a).
Proof. intros H. unfold try_except. by rewrite H. Qed.

Lemma try_raise {S A} (m : M S A) h st st' ex :
  m st = (st', inl ex) → try_except m h st = h ex st'.
Proof. intros H. unfold try_except. by rewrite H. Qed.

(** ** The availability lookup *)

Lemma elem_of_collect (l : list document) (X : gset value) v :
  v ∈ foldl collect X l ↔ v ∈ X ∨ ∃ d, d ∈ l ∧ d !! "spot" = Some v.
Proof.
  revert X. induction l as [|d l IH]; intros X; simpl.
  - split; [auto|]. intros [?|(d & Hd & _)]; [done|]. by apply elem_of_nil in Hd.
  - rewrite IH. unfold collect at 1. split.
    + intros [HX|(d' & Hd' & Hs)].
      * destruct (d !! "spot") as [w|] eqn:Hw; [|by left].
        apply elem_of_union in HX as [->%elem_of_singleton|HX]; [|by left].
        right. exists d. split; [apply list_elem_of_here|done].
      * right. exists d'. split; [by apply list_elem_of_further|done].
    + intros [HX|(d' & Hd' & Hs)].
      * left. destruct (d !! "spot"); [apply elem_of_union; by right|done].
      * apply elem_of_cons in Hd' as [->|Hd'].
        -- left. rewrite Hs. apply elem_of_union. left. by apply elem_of_singleton.
        -- right. eauto.
Qed.

Lemma elem_of_used st zone date v :
  v ∈ used st zone date ↔ reserved st zone date v.
Proof.
  unfold used, reserved. rewrite elem_of_collect. split.
  - intros [H|(d & Hd & Hs)]; [by apply not_elem_of_empty in H|].
    apply list_elem_of_filter in Hd as [Hm Hd].
    apply list_elem_of_fmap in Hd as ([id d'] & -> & Hd).
    apply elem_of_map_to_list in Hd. simpl in *.
    unfold matches in Hm. apply andb_true_iff in Hm as [Hz Hda].
    apply bool_decide_eq_true in Hz, Hda. eauto 10.
  - intros (id & d & Hd & Hz & Hda & Hs). right. exists d. split; [|done].
    apply list_elem_of_filter. split.
    + unfold matches. by rewrite !bool_decide_eq_true_2.
    + apply list_elem_of_fmap. exists (id, d). split; [done|].
      by apply elem_of_map_to_list.
Qed.

(** On a successful query for a configured zone the lookup returns the
    universe without the used spots, and leaves the state alone. *)
Lemma get_available_spots_ok e st z date limit :
  query_fault e = None →
  zone_limits !! z = Some limit →
  get_available_spots e (VStr z) date st =
    (st, inr (filter (λ spot, VStr spot ∉ used st (VStr z) date)
                (universe (VStr z) limit))).
Proof.
  intros Hq Hl. apply try_ok.
  unfold get_available_spots_try, stream, subscript, mbind, M_bind.
  by rewrite Hq, Hl.
Qed.

Lemma get_available_spots_query_raises e st zone date msg :
  query_fault e = Some msg →
  get_available_spots e zone date st = (st, inr []).
Proof.
  intros Hq. unfold get_available_spots.
  rewrite (try_raise _ _ st st (UpstreamError msg)); [done|].
  unfold get_available_spots_try, stream, mbind, M_bind. by rewrite Hq.
Qed.

Lemma zone_limits_valid zone :
  valid_zone zone → ∃ z limit, zone = VStr z ∧ zone_limits !! z = Some limit.
Proof.
  intros [-> | [-> | ->]]; eexists _, _; (split; [reflexivity|]);
    vm_compute; reflexivity.
Qed.

Lemma zone_limits_lookup z limit :
  zone_limits !! z = Some limit →
  (z = "A" ∧ limit = 55) ∨ (z = "B" ∧ limit = 52) ∨ (z = "C" ∧ limit = 45).
Proof.
  unfold zone_limits. intros H.
  apply lookup_insert_Some in H as [[<- <-] | [_ H]]; [auto|].
  apply lookup_insert_Some in H as [[<- <-] | [_ H]]; [auto|].
  apply lookup_singleton_Some in H as [<- <-]. auto.
Qed.

Lemma zone_limits_unknown zone :
  ¬ valid_zone (VStr zone) → zone_limits !! zone = None.
Proof.
  intros Hn. destruct (zone_limits !! zone) as [limit|] eqn:Hl; [|done].
  destruct Hn. unfold valid_zone.
  apply zone_limits_lookup in Hl as [[-> _] | [[-> _] | [-> _]]]; auto.
Qed.

(** For a zone that is not configured, the subscript of [zone_limits]
    raises inside the [try] block, after the query. *)
Lemma get_available_spots_try_unknown_zone e st zone date :
  query_fault e = None →
  ¬ valid_zone (VStr zone) →
  get_available_spots_try e (VStr zone) date st
    = (st, inl (KeyError (VStr zone))).
Proof.
  intros Hq Hl%zone_limits_unknown.
  unfold get_available_spots_try, stream, subscript, mbind, M_bind.
  by rewrite Hq, Hl.
Qed.

Lemma get_available_spots_unknown_zone e st zone date :
  ¬ valid_zone (VStr zone) →
  get_available_spots e (VStr zone) date st = (st, inr []).
Proof.
  intros Hn. destruct (query_fault e) as [msg|] eqn:Hq.
  - by apply (get_available_spots_query_raises e st _ _ msg).
  - unfold get_available_spots.
    by rewrite (try_raise _ _ st st (KeyError (VStr zone)))
      by by apply get_available_spots_try_unknown_zone.
Qed.

(** The lookup never raises and never changes the state. *)
Lemma get_available_spots_total e st zone date :
  ∃ available, get_available_spots e zone date st = (st, inr available).
Proof.
  unfold get_available_spots, get_available_spots_try, try_except, mbind,
    M_bind, stream.
  destruct (query_fault e); [by eexists|].
  unfold subscript. destruct zone; try by eexists.
  destruct (zone_limits !! s); by eexists.
Qed.

Global Instance spot_name_inj zone : Inj (=) (=) (spot_name zone).
Proof.
  intros i j H. unfold spot_name in H.
  apply (inj (String.append (str zone))) in H. by apply (inj pretty) in H.
Qed.

Lemma NoDup_universe zone limit : NoDup (universe zone limit).
Proof. unfold universe. apply NoDup_fmap_2; [apply _|apply NoDup_seqZ]. Qed.




(** C1, as stated, fails: a stored reservation whose status is not
    [confirmed] removes its spot from the result all the same, because the
    query filters on zone and date only. *)
Lemma cancelled_reservation_hides_spot :
  ¬ complement_is_confirmed all_up one_cancelled
      (VStr "A") (VStr "2024-06-01") 55.
Proof.
  intros (available & Hrun & _ & _ & Hcompl).
  assert (confirmed one_cancelled (VStr "A") (VStr "2024-06-01") (VStr "A1"))
    as (id & d & Hd & _ & _ & _ & Hst).
  { apply Hcompl. vm_compute in Hrun. injection Hrun as <-.
    split; [by vm_compute; apply list_elem_of_here|].
    refine (bool_decide_eq_false_1 _ _). vm_compute. reflexivity. }
  unfold one_cancelled in Hd. simpl in Hd.
  apply lookup_singleton_Some in Hd as [_ <-]. vm_compute in Hst. discriminate.
Qed.

(** C1, amended: for a configured zone and a successful query, the result
    is a duplicate-free subsequence of the universe [Z1 .. Zlimit] in
    generation order, and a spot of the universe is missing from it exactly
    when some stored reservation for the zone and date carries it, whatever
    the status of that reservation. *)
Theorem available_spots_complement e st zone date :
  valid_zone zone →
  query_fault e = None →
  ∃ z limit available,
    zone = VStr z ∧ zone_limits !! z = Some limit ∧
    get_available_spots e zone date st = (st, inr available) ∧
    NoDup available ∧
    available `sublist_of` universe zone limit ∧
    ∀ spot, spot ∈ universe zone limit →
            (spot ∉ available ↔ reserved st zone date (VStr spot)).
Proof.
  intros (z & limit & -> & Hl)%zone_limits_valid Hq.
  eexists z, limit, _. split; [done|]. split; [done|].
  split; [by apply get_available_spots_ok|].
  split; [apply list.NoDup_filter, NoDup_universe|].
  split; [apply sublist_filter|].
  intros spot Hu. rewrite list_elem_of_filter, <- elem_of_used. split.
  - intros Hn. destruct (decide (VStr spot ∈ used st (VStr z) date)); [done|].
    by destruct Hn.
  - intros Hin [Hn _]. done.
Qed.

Lemma available_spots_complement_witness :
  ∃ z limit available,
    VStr "A" = VStr z ∧ zone_limits !! z = Some limit ∧
    get_available_spots all_up (VStr "A") (VStr "2024-06-01") one_cancelled
      = (one_cancelled, inr available) ∧
    NoDup available ∧
    available `sublist_of` universe (VStr "A") limit ∧
    ∀ spot, spot ∈ universe (VStr "A") limit →
            (spot ∉ available ↔
             reserved one_cancelled (VStr "A") (VStr "2024-06-01") (VStr spot)).
Proof.
  apply (available_spots_complement all_up one_cancelled).
  - left. reflexivity.
  - reflexivity.
Defined.

(** ** The POST path *)

Lemma value_in_zones zone :
  value_in zone ["A"; "B"; "C"] = true ↔ valid_zone zone.
Proof.
  unfold value_in, valid_zone. rewrite bool_decide_eq_true.
  rewrite !fmap_cons, fmap_nil, !elem_of_cons, elem_of_nil. tauto.
Qed.

Lemma valid_zone_truthy zone : valid_zone zone → truthy zone = true.
Proof. by intros [-> | [-> | ->]]. Qed.

Lemma reserve_post_method e r :
  method r = "POST" → reserve e r = reserve_post e r.
Proof. intros H. unfold reserve. by rewrite H. Qed.

Section post.
Context (e : env) (r : request) (st : state) (fields : gmap string value).
Hypothesis Hmethod : method r = "POST".
Hypothesis Hjson : json r = Some fields.

Lemma post_missing_fields :
  truthy (dict_get fields "zone") && truthy (dict_get fields "date") &&
    truthy (dict_get fields "email") = false →
  reserve e r st =
    (st, inr (Response (ErrorBody "Missing required fields") 400 headers)).
Proof.
  intros H. rewrite reserve_post_method by done.
  unfold reserve_post, get_json, try_except, mbind, M_bind.
  rewrite Hjson. simpl. by rewrite H.
Qed.

Lemma post_invalid_zone :
  truthy (dict_get fields "zone") && truthy (dict_get fields "date") &&
    truthy (dict_get fields "email") = true →
  ¬ valid_zone (dict_get fields "zone") →
  reserve e r st = (st, inr (Response (ErrorBody "Invalid zone") 400 headers)).
Proof.
  intros H Hz. rewrite reserve_post_method by done.
  rewrite <- value_in_zones in Hz. apply not_true_is_false in Hz.
  unfold reserve_post, get_json, try_except, mbind, M_bind.
  rewrite Hjson. simpl. by rewrite H, Hz.
Qed.

Hypothesis Hzone : valid_zone (dict_get fields "zone").
Hypothesis Hdate : truthy (dict_get fields "date") = true.
Hypothesis Hemail : truthy (dict_get fields "email") = true.

Context (available : list string).
Hypothesis Havailable :
  get_available_spots e (dict_get fields "zone") (dict_get fields "date") st
    = (st, inr available).

(** Past the two validations and the lookup, a POST is the spot check
    followed by the write, the publish and the success response, all under
    the handler that answers an exception with a 500. *)
Lemma post_validated :
  reserve e r st =
    try_except
      (match choose_spot (dict_get fields "spot") available with
       | inl early => mret early
       | inr spot =>
           document_set e (auto_id e)
             (reservation_data e (dict_get fields "zone") spot
                (dict_get fields "date") (dict_get fields "email"));;
           publish_email e (dict_get fields "email")
             (VStr "Parking Reservation Confirmation")
             (VStr (confirmation (dict_get fields "zone") spot
                      (dict_get fields "date") (auto_id e)));;
           mret (Response (SuccessBody spot (auto_id e)) 200 headers)
       end)
      (λ ex, mret (Response (ErrorBody (str_exn ex)) 500 headers)) st.
Proof.
  rewrite reserve_post_method by done.
  pose proof (valid_zone_truthy _ Hzone) as Ht.
  apply value_in_zones in Hzone.
  unfold reserve_post, get_json, try_except, mbind, M_bind.
  rewrite Hjson. simpl. rewrite Ht, Hdate, Hemail, Hzone. simpl.
  by rewrite Havailable.
Qed.

(** An early [return] of the spot check leaves the state as it was. *)
Lemma post_early early :
  choose_spot (dict_get fields "spot") available = inl early →
  reserve e r st = (st, inr early).
Proof. intros H. rewrite post_validated, H. done. Qed.

Context (spot : value).
Hypothesis Hspot : choose_spot (dict_get fields "spot") available = inr spot.

Lemma post_write_fails msg :
  set_fault e = Some msg →
  reserve e r st = (st, inr (Response (ErrorBody msg) 500 headers)).
Proof.
  intros H. rewrite post_validated, Hspot.
  unfold try_except, mbind, M_bind, document_set. by rewrite H.
Qed.

Lemma post_publish_fails msg :
  set_fault e = None →
  publish_fault e = Some msg →
  reserve e r st =
    (State
       (<[auto_id e := reservation_data e (dict_get fields "zone") spot
                         (dict_get fields "date") (dict_get fields "email")]>
          (db st))
       (topic st),
     inr (Response (ErrorBody msg) 500 headers)).
Proof.
  intros H Hp. rewrite post_validated, Hspot.
  unfold try_except, mbind, M_bind, document_set, publish_email.
  by rewrite H, Hp.
Qed.

Lemma post_success :
  set_fault e = None →
  publish_fault e = None →
  reserve e r st =
    (State
       (<[auto_id e := reservation_data e (dict_get fields "zone") spot
                         (dict_get fields "date") (dict_get fields "email")]>
          (db st))
       (topic st ++
          [email_payload (dict_get fields "email")
             (VStr "Parking Reservation Confirmation")
             (VStr (confirmation (dict_get fields "zone") spot
                      (dict_get fields "date") (auto_id e)))]),
     inr (Response (SuccessBody spot (auto_id e)) 200 headers)).
Proof.
  intros H Hp. rewrite post_validated, Hspot.
  unfold try_except, mbind, M_bind, document_set, publish_email.
  by rewrite H, Hp.
Qed.

End post.

(** C6: a POST is validated in this order.  If [zone], [date] or [email] is
    falsy (missing, null or empty) the answer is the 400 "Missing required
    fields"; otherwise, if the zone is not A, B or C, the answer is the 400
    "Invalid zone"; so zone "D" is answered with a 400 validation error
    whatever the other fields are.  In each case the state is returned as it
    was, for every store content and every behaviour of the services. *)
Theorem reserve_validation_order e r st fields :
  method r = "POST" →
  json r = Some fields →
  ((truthy (dict_get fields "zone") = false ∨
    truthy (dict_get fields "date") = false ∨
    truthy (dict_get fields "email") = false) →
   reserve e r st =
     (st, inr (Response (ErrorBody "Missing required fields") 400 headers))) ∧
  (truthy (dict_get fields "zone") = true →
   truthy (dict_get fields "date") = true →
   truthy (dict_get fields "email") = true →
   ¬ valid_zone (dict_get fields "zone") →
   reserve e r st =
     (st, inr (Response (ErrorBody "Invalid zone") 400 headers))) ∧
  (dict_get fields "zone" = VStr "D" →
   ∃ error, (error = "Missing required fields" ∨ error = "Invalid zone") ∧
            reserve e r st = (st, inr (Response (ErrorBody error) 400 headers))).
Proof.
  intros Hm Hj. split; [|split].
  - intros H. apply (post_missing_fields e r st fields Hm Hj).
    destruct H as [-> | [-> | ->]]; [done|..].
    + by rewrite andb_false_r.
    + by rewrite andb_false_r.
  - intros Hz Hd He Hn. apply (post_invalid_zone e r st fields Hm Hj); [|done].
    by rewrite Hz, Hd, He.
  - intros HD.
    destruct (truthy (dict_get fields "zone") && truthy (dict_get fields "date")
              && truthy (dict_get fields "email")) eqn:Hall.
    + exists "Invalid zone". split; [by right|].
      apply (post_invalid_zone e r st fields Hm Hj Hall).
      rewrite HD. intros [? | [? | ?]]; discriminate.
    + exists "Missing required fields". split; [by left|].
      apply (post_missing_fields e r st fields Hm Hj Hall).
Qed.

Lemma reserve_validation_order_witness :
  reserve all_up (post ask_no_email) one_cancelled =
    (one_cancelled,
     inr (Response (ErrorBody "Missing required fields") 400 headers)) ∧
  reserve all_up (post ask_zone_D) one_cancelled =
    (one_cancelled, inr (Response (ErrorBody "Invalid zone") 400 headers)).
Proof.
  split.
  - apply (reserve_validation_order all_up (post ask_no_email) one_cancelled
             ask_no_email); [reflexivity|reflexivity|].
    right. right. vm_compute. reflexivity.
  - apply (reserve_validation_order all_up (post ask_zone_D) one_cancelled
             ask_zone_D); [reflexivity|reflexivity|..]; try (vm_compute; reflexivity).
    intros [H | [H | H]]; vm_compute in H; discriminate.
Defined.

(** C3: a POST with valid zone, date and email and a requested spot that is
    not in the available list computed for the zone and date is answered
    with the 400 "Selected spot is no longer available"; no document is
    written and no notification is published. *)
Theorem reserve_requested_spot_unavailable e r st fields available :
  method r = "POST" →
  json r = Some fields →
  valid_zone (dict_get fields "zone") →
  truthy (dict_get fields "date") = true →
  truthy (dict_get fields "email") = true →
  truthy (dict_get fields "spot") = true →
  get_available_spots e (dict_get fields "zone") (dict_get fields "date") st
    = (st, inr available) →
  value_in (dict_get fields "spot") available = false →
  reserve e r st =
    (st, inr (Response (ErrorBody "Selected spot is no longer available")
                400 headers)).
Proof.
  intros Hm Hj Hz Hd He Hs Ha Hin.
  apply (post_early e r st fields Hm Hj Hz Hd He available Ha).
  unfold choose_spot. by rewrite Hs, Hin.
Qed.

Lemma reserve_requested_spot_unavailable_witness :
  reserve all_up (post ask_A1) one_cancelled =
    (one_cancelled,
     inr (Response (ErrorBody "Selected spot is no longer available")
            400 headers)).
Proof.
  apply (reserve_requested_spot_unavailable all_up (post ask_A1) one_cancelled
           ask_A1 (tail A1_to_A55)); try (vm_compute; reflexivity).
  left. vm_compute. reflexivity.
Defined.



(** C4, amended: once the reservation document is written, a failing
    publish leaves the document in the store, but the caller is answered
    with a 500 that carries the message of the publish error. *)
Theorem reserve_publish_failure_surfaces e r st fields available spot msg :
  method r = "POST" →
  json r = Some fields →
  valid_zone (dict_get fields "zone") →
  truthy (dict_get fields "date") = true →
  truthy (dict_get fields "email") = true →
  get_available_spots e (dict_get fields "zone") (dict_get fields "date") st
    = (st, inr available) →
  choose_spot (dict_get fields "spot") available = inr spot →
  set_fault e = None →
  publish_fault e = Some msg →
  db (reserve e r st).1 !! auto_id e =
    Some (reservation_data e (dict_get fields "zone") spot
            (dict_get fields "date") (dict_get fields "email")) ∧
  topic (reserve e r st).1 = topic st ∧
  (reserve e r st).2 = inr (Response (ErrorBody msg) 500 headers).
Proof.
  intros Hm Hj Hz Hd He Ha Hc Hw Hp.
  rewrite (post_publish_fails e r st fields Hm Hj Hz Hd He _ Ha _ Hc msg)
    by done.
  split; [apply lookup_insert_eq|done].
Qed.

(** C4, as stated, fails: the publish raises after the document is written,
    the document stays in the store, and the caller is answered with a 500
    instead of the success response. *)
Lemma publish_failure_answers_500 :
  db (reserve publish_down (post ask_any) zone_B_only).1 !! auto_id publish_down =
    Some (reservation_data publish_down (VStr "A") (VStr "A1")
            (VStr "2024-06-01") (VStr "u@example.com")) ∧
  (reserve publish_down (post ask_any) zone_B_only).2 =
    inr (Response (ErrorBody "503 pubsub unavailable") 500 headers) ∧
  ¬ success_answer (reserve publish_down (post ask_any) zone_B_only).
Proof.
  assert ((reserve publish_down (post ask_any) zone_B_only).2 =
          inr (Response (ErrorBody "503 pubsub unavailable") 500 headers))
    as Hanswer by (vm_compute; reflexivity).
  split; [vm_compute; reflexivity|]. split; [done|].
  intros (spot & id & Hok). rewrite Hanswer in Hok. discriminate.
Qed.

Lemma reserve_publish_failure_surfaces_witness :
  db (reserve publish_down (post ask_A1) zone_B_only).1 !! auto_id publish_down =
    Some (reservation_data publish_down (VStr "A") (VStr "A1")
            (VStr "2024-06-01") (VStr "u@example.com")) ∧
  topic (reserve publish_down (post ask_A1) zone_B_only).1 = [] ∧
  (reserve publish_down (post ask_A1) zone_B_only).2 =
    inr (Response (ErrorBody "503 pubsub unavailable") 500 headers).
Proof.
  apply (reserve_publish_failure_surfaces publish_down (post ask_A1)
           zone_B_only ask_A1 A1_to_A55 (VStr "A1") "503 pubsub unavailable");
    try (vm_compute; reflexivity).
  left. vm_compute. reflexivity.
Defined.

(** C10: a GET on the available-spots path with a non-empty date and a
    non-empty zone other than A, B and C is answered with a 200 and an empty
    list, whether or not the store query succeeds: when it does, the lookup
    of the zone's capacity raises a [KeyError] inside [get_available_spots],
    which the [except] clause turns into the empty list. *)
Theorem reserve_get_unknown_zone e r st zone date :
  method r = "GET" →
  endswith (path r) "/available-spots" = true →
  args r !! "zone" = Some zone →
  args r !! "date" = Some date →
  zone ≠ "" → date ≠ "" →
  ¬ valid_zone (VStr zone) →
  (query_fault e = None →
   get_available_spots_try e (VStr zone) (VStr date) st
     = (st, inl (KeyError (VStr zone)))) ∧
  get_available_spots e (VStr zone) (VStr date) st = (st, inr []) ∧
  reserve e r st =
    (st, inr (Response (SpotsBody [] (VStr zone) (VStr date)) 200 headers)).
Proof.
  intros Hm Hp Hz Hd Hzne Hdne Hn.
  pose proof (get_available_spots_unknown_zone e st zone (VStr date) Hn) as Hg.
  split; [intros Hq; by apply get_available_spots_try_unknown_zone|].
  split; [done|].
  unfold reserve. rewrite Hm, Hp. simpl.
  unfold reserve_get, args_get. rewrite Hz, Hd. simpl.
  apply String.eqb_neq in Hzne, Hdne. rewrite Hzne, Hdne. simpl.
  apply try_ok. by rewrite (bind_ok _ _ _ _ _ Hg).
Qed.

Lemma reserve_get_unknown_zone_witness :
  get_available_spots_try all_up (VStr "D") (VStr "2024-06-01") one_cancelled
    = (one_cancelled, inl (KeyError (VStr "D"))) ∧
  reserve all_up get_zone_D one_cancelled =
    (one_cancelled,
     inr (Response (SpotsBody [] (VStr "D") (VStr "2024-06-01")) 200 headers)).
Proof.
  assert (¬ valid_zone (VStr "D")) as Hzone
    by (intros [H | [H | H]]; discriminate).
  pose proof (reserve_get_unknown_zone all_up get_zone_D one_cancelled
                "D" "2024-06-01" eq_refl eq_refl eq_refl eq_refl)
    as (Hraise & _ & Hanswer); [discriminate|discriminate|exact Hzone|].
  split; [apply Hraise; reflexivity|exact Hanswer].
Defined.

(** ** Masked query failures *)

Lemma filter_none {A} (P : A → Prop) `{!∀ x, Decision (P x)} (l : list A) :
  (∀ x, x ∈ l → ¬ P x) → filter P l = [].
Proof.
  intros Hall. destruct (filter P l) as [|x rest] eqn:Hf; [done|].
  assert (x ∈ filter P l) as [Hp Hx]%list_elem_of_filter.
  { rewrite Hf. apply list_elem_of_here. }
  by destruct (Hall x Hx).
Qed.

Lemma fully_booked_reserved zone date limit spot :
  spot ∈ universe zone limit →
  reserved (fully_booked zone date limit) zone date (VStr spot).
Proof.
  intros Hin. eexists spot, _. split; [|split; [|split]].
  - unfold fully_booked. simpl. apply elem_of_list_to_map_1.
    + rewrite <- list_fmap_compose.
      rewrite (list_fmap_ext _ id); [|done]. rewrite list_fmap_id.
      apply NoDup_universe.
    + apply (list_elem_of_fmap_2 (λ s, (s, _)) _ _ Hin).
  - done.
  - done.
  - done.
Qed.

(** C5: when the store query raises, [get_available_spots] returns the
    empty list instead of propagating the error; for a configured zone a
    fully booked store yields the same empty list on a successful query, so
    the result alone does not tell the two situations apart. *)
Theorem query_failure_is_masked e st zone date msg :
  query_fault e = Some msg →
  get_available_spots e zone date st = (st, inr []) ∧
  (valid_zone zone →
   ∃ e' st', query_fault e' = None ∧
             get_available_spots e' zone date st' = (st', inr [])).
Proof.
  intros Hq. split; [by apply (get_available_spots_query_raises e st _ _ msg)|].
  intros (z & limit & -> & Hl)%zone_limits_valid.
  exists (Env None (set_fault e) (publish_fault e) (auto_id e) (now e)),
         (fully_booked (VStr z) date limit).
  split; [done|].
  rewrite (get_available_spots_ok _ _ z date limit) by done.
  f_equal. f_equal. apply filter_none. intros spot Hin Hfree.
  apply Hfree, elem_of_used. by apply fully_booked_reserved.
Qed.

Lemma query_failure_is_masked_witness :
  get_available_spots query_down (VStr "A") (VStr "2024-06-01") zone_B_only
    = (zone_B_only, inr []) ∧
  ∃ e' st', query_fault e' = None ∧
            get_available_spots e' (VStr "A") (VStr "2024-06-01") st'
              = (st', inr []).
Proof.
  destruct (query_failure_is_masked query_down zone_B_only (VStr "A")
              (VStr "2024-06-01") "503 firestore unavailable") as [Hnil Hfull].
  - reflexivity.
  - split; [exact Hnil|]. apply Hfull. left. reflexivity.
Defined.

(** ** End to end on zone A *)

Lemma available_no_reservations e st :
  query_fault e = None →
  no_reservations st (VStr "A") (VStr "2024-06-01") →
  get_available_spots e (VStr "A") (VStr "2024-06-01") st
    = (st, inr A1_to_A55).
Proof.
  intros Hq Hno. rewrite (get_available_spots_ok e st "A" _ 55) by done.
  rewrite (list_filter_iff _ (λ _, True)).
  - vm_compute. reflexivity.
  - intros spot. rewrite elem_of_used. split; [done|].
    intros _ (id & d & Hd & Hz & Hda & _). by apply (Hno id d).
Qed.

Lemma available_after_A1 e e1 st email topic1 :
  query_fault e = None →
  no_reservations st (VStr "A") (VStr "2024-06-01") →
  ∃ rest,
    get_available_spots e (VStr "A") (VStr "2024-06-01")
      (State (<[auto_id e1 := reservation_data e1 (VStr "A") (VStr "A1")
                                (VStr "2024-06-01") email]> (db st)) topic1)
    = (State (<[auto_id e1 := reservation_data e1 (VStr "A") (VStr "A1")
                                (VStr "2024-06-01") email]> (db st)) topic1,
       inr ("A2" :: rest)).
Proof.
  intros Hq Hno. rewrite (get_available_spots_ok e _ "A" _ 55) by done.
  rewrite (list_filter_iff _ (λ spot, spot ≠ "A1")).
  - eexists. vm_compute. reflexivity.
  - intros spot. rewrite elem_of_used. split.
    + intros Hfree ->. apply Hfree. by eexists (auto_id e1), _; simplify_map_eq.
    + intros Hne (id & d & Hd & Hz & Hda & Hs). simpl in Hd.
      apply lookup_insert_Some in Hd as [[_ <-] | [_ Hd]].
      * unfold reservation_data in Hs. simplify_map_eq.
      * by apply (Hno id d).
Qed.

(** C7: zone A has 55 spots.  From a store without reservations for A on
    2024-06-01, the lookup returns A1 .. A55; a POST for that zone and date
    that names no spot is answered with spot A1 and the generated document
    id, which is non-empty as Firestore ids are; and the same POST again is
    answered with spot A2. *)
Theorem end_to_end_zone_A e1 e2 r st fields :
  no_reservations st (VStr "A") (VStr "2024-06-01") →
  method r = "POST" →
  json r = Some fields →
  fields !! "zone" = Some (VStr "A") →
  fields !! "date" = Some (VStr "2024-06-01") →
  fields !! "email" = Some (VStr "u@example.com") →
  fields !! "spot" = None →
  services_up e1 → services_up e2 →
  auto_id e1 ≠ "" →
  zone_limits !! "A" = Some 55 ∧
  get_available_spots e1 (VStr "A") (VStr "2024-06-01") st
    = (st, inr A1_to_A55) ∧
  ∃ st1 st2 id1,
    reserve e1 r st =
      (st1, inr (Response (SuccessBody (VStr "A1") id1) 200 headers)) ∧
    id1 ≠ "" ∧
    reserve e2 r st1 =
      (st2, inr (Response (SuccessBody (VStr "A2") (auto_id e2)) 200 headers)).
Proof.
  intros Hno Hm Hj Hz Hd He Hs (Hq1 & Hw1 & Hp1) (Hq2 & Hw2 & Hp2) Hid.
  assert (dict_get fields "zone" = VStr "A") as Hz' by (unfold dict_get; by rewrite Hz).
  assert (dict_get fields "date" = VStr "2024-06-01") as Hd'
    by (unfold dict_get; by rewrite Hd).
  assert (dict_get fields "email" = VStr "u@example.com") as He'
    by (unfold dict_get; by rewrite He).
  assert (dict_get fields "spot" = VNone) as Hs'
    by (unfold dict_get; by rewrite Hs).
  assert (valid_zone (dict_get fields "zone")) as Hv by (rewrite Hz'; by left).
  split; [done|]. split; [by apply available_no_reservations|].
  pose proof (available_no_reservations e1 st Hq1 Hno) as Ha1.
  eexists _, _, (auto_id e1).
  split; [|split; [done|]].
  - rewrite (post_success e1 r st fields Hm Hj Hv) with
      (available := A1_to_A55) (spot := VStr "A1");
      rewrite ?Hz', ?Hd', ?He', ?Hs'; done.
  - destruct (available_after_A1 e2 e1 st (VStr "u@example.com")
      (topic st ++
         [email_payload (VStr "u@example.com")
            (VStr "Parking Reservation Confirmation")
            (VStr (confirmation (VStr "A") (VStr "A1") (VStr "2024-06-01")
                     (auto_id e1)))])
      Hq2 Hno) as [rest Ha2].
    rewrite (post_success e2 r _ fields Hm Hj Hv) with
      (available := "A2" :: rest) (spot := VStr "A2");
      rewrite ?Hz', ?Hd', ?He', ?Hs'; done.
Qed.

Lemma end_to_end_zone_A_witness :
  ∃ st1 st2 id1,
    reserve all_up (post ask_any) zone_B_only =
      (st1, inr (Response (SuccessBody (VStr "A1") id1) 200 headers)) ∧
    id1 ≠ "" ∧
    reserve later (post ask_any) st1 =
      (st2, inr (Response (SuccessBody (VStr "A2") (auto_id later)) 200 headers)).
Proof.
  apply (end_to_end_zone_A all_up later (post ask_any) zone_B_only ask_any);
    try (vm_compute; reflexivity); try discriminate.
  - intros id d Hd [Hz _]. unfold zone_B_only in Hd. simpl in Hd.
    apply lookup_singleton_Some in Hd as [_ <-]. vm_compute in Hz. discriminate.
  - repeat split.
  - repeat split.
Defined.

(** ** The queue message and the dispatcher *)

Section dispatcher.
Import Dispatcher.



End dispatcher.





(** * Further properties *)

(** ** Every outcome of the request handler *)

Lemma choose_spot_early spot available early :
  choose_spot spot available = inl early →
  ∃ error, early = Response (ErrorBody error) 400 headers.
Proof.
  unfold choose_spot. destruct (truthy spot).
  - destruct (negb (value_in spot available)); [|done].
    intros [= <-]. eauto.
  - destruct available; [|done]. intros [= <-]. eauto.
Qed.

Lemma choose_spot_chosen spot available chosen :
  choose_spot spot available = inr chosen →
  ∃ s, chosen = VStr s ∧ s ∈ available ∧
       (truthy spot = true → spot = chosen).
Proof.
  unfold choose_spot. destruct (truthy spot).
  - destruct (value_in spot available) eqn:Hin; [|done]. simpl.
    intros [= <-]. unfold value_in in Hin.
    apply bool_decide_eq_true in Hin.
    apply list_elem_of_fmap in Hin as (s & -> & Hs). eauto.
  - destruct available as [|first rest]; [done|]. intros [= <-].
    exists first. split; [done|]. split; [apply list_elem_of_here|done].
Qed.

Lemma quiet_error error status :
  status = 400 ∨ status = 405 ∨ status = 500 →
  quiet (Response (ErrorBody error) status headers).
Proof. intros H. split; [done|]. right. left. eauto. Qed.

(** The handler returns the state as it found it together with a quiet
    response, or it is an accepted POST whose document is written: then the
    publish either fails, which is answered with a 500, or goes through,
    which is answered with the success response. *)
Lemma reserve_cases e r st :
  (∃ resp, reserve e r st = (st, inr resp) ∧ quiet resp) ∨
  (∃ fields available spot,
     accepted e r st fields available spot ∧ set_fault e = None ∧
     ((∃ msg, publish_fault e = Some msg ∧
              reserve e r st =
                (State (written e st fields spot) (topic st),
                 inr (Response (ErrorBody msg) 500 headers))) ∨
      (publish_fault e = None ∧
       reserve e r st =
         (State (written e st fields spot)
            (topic st ++ [notification e fields spot]),
          inr (Response (SuccessBody spot (auto_id e)) 200 headers))))).
Proof.
  destruct (String.eqb (method r) "OPTIONS") eqn:Hopt.
  { left. eexists. unfold reserve. rewrite Hopt. split; [done|].
    split; [done|]. by left. }
  destruct (String.eqb (method r) "GET" && endswith (path r) "/available-spots")
    eqn:Hget.
  { left. unfold reserve. rewrite Hopt, Hget. unfold reserve_get.
    destruct (negb (truthy (args_get r "zone")) ||
              negb (truthy (args_get r "date"))).
    - eexists. split; [done|]. apply quiet_error. by left.
    - destruct (get_available_spots_total e st (args_get r "zone")
                  (args_get r "date")) as [available Ha].
      eexists. split.
      + apply try_ok. by rewrite (bind_ok _ _ _ _ _ Ha).
      + split; [done|]. right. right. eauto. }
  destruct (String.eqb (method r) "POST") eqn:Hpost.
  2:{ left. eexists. unfold reserve. rewrite Hopt, Hget, Hpost.
      split; [done|]. apply quiet_error. right. by left. }
  apply String.eqb_eq in Hpost.
  destruct (json r) as [fields|] eqn:Hjson.
  2:{ left. eexists. rewrite reserve_post_method by done.
      unfold reserve_post, get_json, try_except, mbind, M_bind.
      rewrite Hjson. split; [done|]. apply quiet_error. by right; right. }
  destruct (truthy (dict_get fields "zone") && truthy (dict_get fields "date")
            && truthy (dict_get fields "email")) eqn:Hall.
  2:{ left. eexists. split; [by apply (post_missing_fields e r st fields)|].
      apply quiet_error. by left. }
  apply andb_true_iff in Hall as [[Hz Hd]%andb_true_iff He].
  destruct (value_in (dict_get fields "zone") ["A"; "B"; "C"]) eqn:Hin.
  2:{ left. eexists. split.
      - apply (post_invalid_zone e r st fields); try done.
        + by rewrite Hz, Hd, He.
        + rewrite <- value_in_zones. by rewrite Hin.
      - apply quiet_error. by left. }
  apply value_in_zones in Hin.
  destruct (get_available_spots_total e st (dict_get fields "zone")
              (dict_get fields "date")) as [available Ha].
  destruct (choose_spot (dict_get fields "spot") available) as [early|spot]
    eqn:Hc.
  { left. exists early.
    split; [by apply (post_early e r st fields Hpost Hjson Hin Hd He available)|].
    apply choose_spot_early in Hc as [error ->]. apply quiet_error. by left. }
  destruct (set_fault e) as [msg|] eqn:Hw.
  { left. eexists. split.
    - by apply (post_write_fails e r st fields Hpost Hjson Hin Hd He available
                  Ha spot Hc msg).
    - apply quiet_error. by right; right. }
  right. exists fields, available, spot. split; [done|]. split; [done|].
  destruct (publish_fault e) as [msg|] eqn:Hp.
  - left. exists msg. split; [done|].
    by apply (post_publish_fails e r st fields Hpost Hjson Hin Hd He available
                Ha spot Hc msg).
  - right. split; [done|].
    by apply (post_success e r st fields Hpost Hjson Hin Hd He available
                Ha spot Hc).
Qed.

(** X1: the handler never lets an exception escape.  Whatever the request,
    the store and the behaviour of the services, it returns a response that
    carries the CORS headers and one of the statuses 200, 204, 400, 405 and
    500. *)
Theorem reserve_always_answers e r st :
  ∃ st' resp,
    reserve e r st = (st', inr resp) ∧
    resp_headers resp = headers ∧
    resp_status resp ∈ statuses.
Proof.
  unfold statuses.
  destruct (reserve_cases e r st)
    as [(resp & -> & Hh & Hq) |
        (fields & available & spot & _ & _ & [(msg & _ & ->) | [_ ->]])].
  - exists st, resp. split; [done|]. split; [done|].
    destruct Hq as [[_ ->] | [(error & _ & [-> | [-> | ->]]) |
                              (l & z & d & _ & ->)]];
      rewrite !elem_of_cons; auto 10.
  - eexists _, _. split; [done|]. split; [done|].
    simpl. rewrite !elem_of_cons. auto 10.
  - eexists _, _. split; [done|]. split; [done|].
    simpl. rewrite !elem_of_cons. auto 10.
Qed.

(** X2: only an accepted POST changes anything.  A request whose method is
    not POST, and any request answered with 204, 400 or 405, leaves the
    collection and the topic exactly as they were. *)
Theorem reserve_leaves_state e r st :
  method r ≠ "POST" ∨
  (∃ resp, (reserve e r st).2 = inr resp ∧
           (resp_status resp = 204 ∨ resp_status resp = 400 ∨
            resp_status resp = 405)) →
  (reserve e r st).1 = st.
Proof.
  intros H.
  destruct (reserve_cases e r st)
    as [(resp & -> & _) |
        (fields & available & spot & Hacc & _ & Hrun)]; [done|].
  destruct Hacc as (Hm & _).
  destruct H as [H | (resp & Hresp & Hs)]; [done|].
  destruct Hrun as [(msg & _ & Hrun) | [_ Hrun]];
    rewrite Hrun in Hresp; injection Hresp as <-; simpl in Hs;
    by destruct Hs as [? | [? | ?]].
Qed.

Lemma reserve_leaves_state_witness :
  (reserve all_up put_request zone_B_only).1 = zone_B_only ∧
  (reserve all_up (post ask_zone_D) zone_B_only).1 = zone_B_only.
Proof.
  split.
  - apply (reserve_leaves_state all_up put_request zone_B_only).
    left. discriminate.
  - apply (reserve_leaves_state all_up (post ask_zone_D) zone_B_only).
    right. eexists. split; [vm_compute; reflexivity|]. right. left. reflexivity.
Defined.

(** X3: the handler never deletes or rewrites a stored reservation other
    than the one filed under the newly generated id, and it appends at most
    one message to the topic, never removing one. *)
Theorem reserve_frame e r st :
  (∀ id, id ≠ auto_id e →
         db (reserve e r st).1 !! id = db st !! id) ∧
  ∃ published, topic (reserve e r st).1 = topic st ++ published ∧
               (length published ≤ 1)%nat.
Proof.
  destruct (reserve_cases e r st)
    as [(resp & -> & _) |
        (fields & available & spot & _ & _ & [(msg & _ & ->) | [_ ->]])];
    simpl.
  - split; [done|]. exists []. split; [by rewrite app_nil_r|simpl; lia].
  - split; [intros id Hid; by apply lookup_insert_ne|].
    exists []. split; [by rewrite app_nil_r|simpl; lia].
  - split; [intros id Hid; by apply lookup_insert_ne|].
    eexists [_]. split; [done|]. simpl. lia.
Qed.

(** X4: the success response is never given for nothing.  When the handler
    answers with a spot and a reservation id, the status is 200, the id is the
    generated one, the document filed under it carries the requested zone,
    date and email, the answered spot and the status [confirmed], and exactly
    one message, addressed to the requested email, has been added to the
    topic. *)
Theorem reserve_success_is_persisted e r st st' spot id status hdrs :
  reserve e r st = (st', inr (Response (SuccessBody spot id) status hdrs)) →
  status = 200 ∧ id = auto_id e ∧
  ∃ fields,
    method r = "POST" ∧ json r = Some fields ∧
    db st' !! id =
      Some (reservation_data e (dict_get fields "zone") spot
              (dict_get fields "date") (dict_get fields "email")) ∧
    topic st' =
      topic st ++
        [email_payload (dict_get fields "email")
           (VStr "Parking Reservation Confirmation")
           (VStr (confirmation (dict_get fields "zone") spot
                    (dict_get fields "date") id))].
Proof.
  intros Hrun.
  destruct (reserve_cases e r st)
    as [(resp & Hq & _ & Hshape) |
        (fields & available & chosen & Hacc & _ &
         [(msg & _ & Hp) | [_ Hp]])];
    rewrite Hrun in *.
  - injection Hq as _ <-. simpl in Hshape.
    by destruct Hshape as [[? _] | [(? & ? & _) | (? & ? & ? & ? & _)]].
  - by injection Hp.
  - injection Hp as -> -> -> -> ->.
    destruct Hacc as (Hm & Hj & _).
    split; [done|]. split; [done|]. exists fields.
    split; [done|]. split; [done|]. split; [apply lookup_insert_eq|done].
Qed.

Lemma reserve_success_is_persisted_witness :
  ∃ fields,
    method (post ask_any) = "POST" ∧ json (post ask_any) = Some fields ∧
    db (reserve all_up (post ask_any) zone_B_only).1 !! auto_id all_up =
      Some (reservation_data all_up (dict_get fields "zone") (VStr "A1")
              (dict_get fields "date") (dict_get fields "email")) ∧
    topic (reserve all_up (post ask_any) zone_B_only).1 =
      topic zone_B_only ++
        [email_payload (dict_get fields "email")
           (VStr "Parking Reservation Confirmation")
           (VStr (confirmation (dict_get fields "zone") (VStr "A1")
                    (dict_get fields "date") (auto_id all_up)))].
Proof.
  apply (reserve_success_is_persisted all_up (post ask_any) zone_B_only
           (reserve all_up (post ask_any) zone_B_only).1
           (VStr "A1") (auto_id all_up) 200 headers).
  vm_compute. reflexivity.
Defined.

(** X5: a notification is published only together with the success
    response: if the topic has changed, the caller was answered with a spot
    and a reservation id. *)
Theorem reserve_publishes_only_on_success e r st :
  topic (reserve e r st).1 ≠ topic st →
  success_answer (reserve e r st).
Proof.
  intros Hne.
  destruct (reserve_cases e r st)
    as [(resp & Hrun & _) |
        (fields & available & spot & _ & _ & [(msg & _ & Hrun) | [_ Hrun]])];
    rewrite Hrun in *; simpl in Hne; [done|done|].
  unfold success_answer. simpl. eauto.
Qed.

Lemma reserve_publishes_only_on_success_witness :
  success_answer (reserve all_up (post ask_any) zone_B_only).
Proof.
  apply (reserve_publishes_only_on_success all_up (post ask_any) zone_B_only).
  vm_compute. discriminate.
Defined.

(** ** What an accepted POST writes *)

(** The spot an accepted POST settles on is a spot of the zone's universe
    that no stored reservation for the zone and date carries, and the query
    has succeeded. *)
Lemma accepted_free e r st fields available spot :
  accepted e r st fields available spot →
  ∃ z limit s,
    dict_get fields "zone" = VStr z ∧ zone_limits !! z = Some limit ∧
    spot = VStr s ∧ s ∈ available ∧ s ∈ universe (VStr z) limit ∧
    ¬ reserved st (VStr z) (dict_get fields "date") (VStr s) ∧
    query_fault e = None.
Proof.
  intros (_ & _ & Hz & _ & _ & Ha & Hc).
  apply choose_spot_chosen in Hc as (s & -> & Hs & _).
  destruct (zone_limits_valid _ Hz) as (z & limit & Hzv & Hl).
  rewrite Hzv in Ha. exists z, limit, s.
  destruct (query_fault e) as [msg|] eqn:Hq.
  { rewrite (get_available_spots_query_raises e st _ _ msg Hq) in Ha.
    injection Ha as <-. by apply elem_of_nil in Hs. }
  rewrite (get_available_spots_ok e st z _ limit Hq Hl) in Ha.
  injection Ha as <-. pose proof Hs as [Hfree Hu]%list_elem_of_filter.
  rewrite elem_of_used in Hfree. done.
Qed.

Lemma reservation_data_lookup e zone spot date email :
  reservation_data e zone spot date email !! "zone" = Some zone ∧
  reservation_data e zone spot date email !! "spot" = Some spot ∧
  reservation_data e zone spot date email !! "date" = Some date ∧
  reservation_data e zone spot date email !! "status"
    = Some (VStr "confirmed").
Proof. by unfold reservation_data; simplify_map_eq. Qed.

(** The state after the handler is the state before, or the state before
    with the document of an accepted POST filed under the generated id. *)
Lemma reserve_db e r st :
  db (reserve e r st).1 = db st ∨
  ∃ fields available spot,
    accepted e r st fields available spot ∧
    db (reserve e r st).1 = written e st fields spot.
Proof.
  destruct (reserve_cases e r st)
    as [(resp & -> & _) |
        (fields & available & spot & Hacc & _ & [(msg & _ & ->) | [_ ->]])];
    [by left|right; eauto..].
Qed.

Lemma reserve_keeps_no_double_booking e r st :
  no_double_booking st → no_double_booking (reserve e r st).1.
Proof.
  intros Hinv.
  destruct (reserve_db e r st)
    as [Hdb | (fields & available & spot & Hacc & Hdb)].
  { unfold no_double_booking. by rewrite Hdb. }
  destruct (accepted_free _ _ _ _ _ _ Hacc)
    as (z & limit & s & Hz & _ & -> & _ & _ & Hfree & _).
  assert (∀ id d zone date spot,
            db st !! id = Some d →
            reservation_data e (dict_get fields "zone") (VStr s)
              (dict_get fields "date") (dict_get fields "email") !! "zone"
              = Some zone →
            reservation_data e (dict_get fields "zone") (VStr s)
              (dict_get fields "date") (dict_get fields "email") !! "date"
              = Some date →
            reservation_data e (dict_get fields "zone") (VStr s)
              (dict_get fields "date") (dict_get fields "email") !! "spot"
              = Some spot →
            d !! "zone" = Some zone → d !! "date" = Some date →
            d !! "spot" = Some spot → False) as Hclash.
  { intros id d zone date spot Hd Hnz Hnd Hns Hdz Hdd Hds.
    destruct (reservation_data_lookup e (dict_get fields "zone") (VStr s)
                (dict_get fields "date") (dict_get fields "email"))
      as (Ez & Es & Ed & _).
    rewrite Ez in Hnz. rewrite Es in Hns. rewrite Ed in Hnd.
    injection Hnz as <-. injection Hns as <-. injection Hnd as <-.
    apply Hfree. rewrite <- Hz. by exists id, d. }
  intros id1 id2 d1 d2 zone date spot H1 H2 Hz1 Hd1 Hs1 Hz2 Hd2 Hs2.
  rewrite Hdb in H1, H2. unfold written in H1, H2.
  apply lookup_insert_Some in H1 as [[<- <-] | [Hne1 H1]];
    apply lookup_insert_Some in H2 as [[E2 <-] | [Hne2 H2]].
  - done.
  - destruct (Hclash id2 d2 zone date spot); done.
  - destruct (Hclash id1 d1 zone date spot); done.
  - by apply (Hinv id1 id2 d1 d2 zone date spot).
Qed.

Lemma reserve_keeps_well_formed e r st :
  all_well_formed st → all_well_formed (reserve e r st).1.
Proof.
  intros Hinv.
  destruct (reserve_db e r st)
    as [Hdb | (fields & available & spot & Hacc & Hdb)].
  { unfold all_well_formed. by rewrite Hdb. }
  destruct (accepted_free _ _ _ _ _ _ Hacc)
    as (z & limit & s & Hz & Hl & -> & _ & Hu & _ & _).
  intros id d Hd. rewrite Hdb in Hd. unfold written in Hd.
  apply lookup_insert_Some in Hd as [[_ <-] | [_ Hd]]; [|by apply (Hinv id)].
  destruct (reservation_data_lookup e (dict_get fields "zone") (VStr s)
              (dict_get fields "date") (dict_get fields "email"))
    as (Ez & Es & _ & Est).
  exists z, limit, s. by rewrite Ez, Es, Est, Hz.
Qed.

(** X6: handling requests one after the other never double-books.  If no
    two stored documents share zone, date and spot, this is still so after
    any sequence of requests, whatever the services do in between; the
    generated id may even collide with a stored one. *)
Theorem serve_keeps_no_double_booking calls st :
  no_double_booking st → no_double_booking (serve calls st).
Proof.
  revert st. induction calls as [|[e r] calls IH]; intros st Hinv; [done|].
  simpl. by apply IH, reserve_keeps_no_double_booking.
Qed.

Lemma serve_keeps_no_double_booking_witness :
  no_double_booking
    (serve [(all_up, post ask_any); (later, post ask_any);
            (publish_down, post ask_A1)] zone_B_only).
Proof.
  apply (serve_keeps_no_double_booking
           [(all_up, post ask_any); (later, post ask_any);
            (publish_down, post ask_A1)] zone_B_only).
  intros id1 id2 d1 d2 zone date spot H1 H2 _ _ _ _ _ _.
  unfold zone_B_only in H1, H2. simpl in H1, H2.
  apply lookup_singleton_Some in H1 as [<- _].
  by apply lookup_singleton_Some in H2 as [<- _].
Defined.

Lemma serve_keeps_well_formed calls st :
  all_well_formed st → all_well_formed (serve calls st).
Proof.
  revert st. induction calls as [|[e r] calls IH]; intros st Hinv; [done|].
  simpl. by apply IH, reserve_keeps_well_formed.
Qed.

Lemma nothing_stored_well_formed : all_well_formed nothing_stored.
Proof.
  intros id d Hd. unfold nothing_stored in Hd. simpl in Hd.
  by rewrite lookup_empty in Hd.
Qed.

(** X7: every document of a store that the handler alone has filled, from
    the empty collection and by any sequence of requests, has a configured
    zone, a spot among that zone's [Z1 .. Zlimit] and the status
    [confirmed]. *)
Theorem served_store_is_well_formed calls :
  all_well_formed (serve calls nothing_stored).
Proof. apply serve_keeps_well_formed, nothing_stored_well_formed. Qed.

(** X8: on a store that the handler alone has filled, the availability
    property holds as the specification words it: for a configured zone and
    a successful query, the spots of the universe missing from the result
    are exactly the spots of the confirmed reservations stored for the zone
    and date. *)
Theorem served_complement_is_confirmed calls e z limit date :
  zone_limits !! z = Some limit →
  query_fault e = None →
  complement_is_confirmed e (serve calls nothing_stored) (VStr z) date limit.
Proof.
  intros Hl Hq.
  pose proof (serve_keeps_well_formed calls _ nothing_stored_well_formed)
    as Hwf.
  unfold complement_is_confirmed. eexists.
  split; [by apply get_available_spots_ok|].
  split; [apply list.NoDup_filter, NoDup_universe|].
  split; [apply sublist_filter|].
  intros spot. rewrite list_elem_of_filter. split.
  - intros [Hu Hn].
    destruct (decide (VStr spot ∈ used (serve calls nothing_stored)
                                       (VStr z) date)) as [Hin|Hout];
      [|by destruct Hn].
    apply elem_of_used in Hin as (id & d & Hd & Hz & Hda & Hs).
    destruct (Hwf id d Hd) as (_ & _ & _ & _ & _ & _ & _ & Hst).
    by exists id, d.
  - intros (id & d & Hd & Hz & Hda & Hs & _).
    assert (reserved (serve calls nothing_stored) (VStr z) date (VStr spot))
      as Hres by by exists id, d.
    destruct (Hwf id d Hd) as (z' & limit' & s & Hz' & Hl' & Hs' & Hu & _).
    rewrite Hz in Hz'. injection Hz' as <-.
    rewrite Hs in Hs'. injection Hs' as <-.
    rewrite Hl in Hl'. injection Hl' as <-.
    split; [done|]. intros [Hfree _]. by apply Hfree, elem_of_used.
Qed.

Lemma served_complement_is_confirmed_witness :
  complement_is_confirmed later
    (serve [(all_up, post ask_any); (publish_down, post ask_any)]
       nothing_stored)
    (VStr "A") (VStr "2024-06-01") 55.
Proof.
  apply (served_complement_is_confirmed
           [(all_up, post ask_any); (publish_down, post ask_any)]
           later "A" 55 (VStr "2024-06-01")); reflexivity.
Defined.

(** ** Availability before and after a reservation *)

(** The result of the lookup in closed form. *)
Lemma get_available_spots_result e st zone date :
  (get_available_spots e zone date st).2 =
    inr match query_fault e, zone with
        | None, VStr z =>
            match zone_limits !! z with
            | Some limit =>
                filter (λ spot, VStr spot ∉ used st zone date)
                  (universe zone limit)
            | None => []
            end
        | _, _ => []
        end.
Proof.
  unfold get_available_spots, get_available_spots_try, try_except, mbind,
    M_bind, stream, subscript.
  destruct (query_fault e); [done|].
  destruct zone; try done. by destruct (zone_limits !! s).
Qed.

Lemma available_in_universe e st z date limit available spot :
  zone_limits !! z = Some limit →
  get_available_spots e (VStr z) date st = (st, inr available) →
  spot ∈ available →
  spot ∈ universe (VStr z) limit ∧ ¬ reserved st (VStr z) date (VStr spot).
Proof.
  intros Hl Ha Hs.
  pose proof (get_available_spots_result e st (VStr z) date) as Hr.
  rewrite Ha, Hl in Hr. simpl in Hr. injection Hr as ->.
  destruct (query_fault e); [by apply elem_of_nil in Hs|].
  apply list_elem_of_filter in Hs as [Hfree Hu].
  by rewrite elem_of_used in Hfree.
Qed.

Lemma value_in_str s available :
  value_in (VStr s) available = true ↔ s ∈ available.
Proof.
  unfold value_in. rewrite bool_decide_eq_true, list_elem_of_fmap. split.
  - by intros (s' & [= ->] & Hs).
  - eauto.
Qed.

Lemma reserved_not_available e st zone date available s :
  reserved st zone date (VStr s) →
  get_available_spots e zone date st = (st, inr available) →
  s ∉ available.
Proof.
  intros Hres Ha Hs.
  pose proof (get_available_spots_result e st zone date) as Hr.
  rewrite Ha in Hr. simpl in Hr. injection Hr as ->.
  destruct (query_fault e); [by apply elem_of_nil in Hs|].
  destruct zone; try by apply elem_of_nil in Hs.
  destruct (zone_limits !! s0); [|by apply elem_of_nil in Hs].
  apply list_elem_of_filter in Hs as [Hfree _].
  by apply Hfree, elem_of_used.
Qed.

Lemma universe_truthy z limit s :
  zone_limits !! z = Some limit →
  s ∈ universe (VStr z) limit →
  truthy (VStr s) = true.
Proof.
  intros Hl (k & -> & _)%list_elem_of_fmap.
  by apply zone_limits_lookup in Hl as [[-> _] | [[-> _] | [-> _]]].
Qed.

(** X9: a spot that has been given out is gone.  After the success response
    for a spot, the lookup for the same zone and date no longer lists that
    spot, and a further POST that requests it for the same zone and date is
    answered with the 400 "Selected spot is no longer available" and changes
    nothing, whatever the services do. *)
Theorem reserved_spot_is_gone e r st st' fields spot id status hdrs :
  json r = Some fields →
  reserve e r st = (st', inr (Response (SuccessBody spot id) status hdrs)) →
  (∀ e2 available,
     get_available_spots e2 (dict_get fields "zone") (dict_get fields "date")
       st' = (st', inr available) →
     value_in spot available = false) ∧
  (∀ e2 r2 fields2,
     method r2 = "POST" → json r2 = Some fields2 →
     dict_get fields2 "zone" = dict_get fields "zone" →
     dict_get fields2 "date" = dict_get fields "date" →
     truthy (dict_get fields2 "email") = true →
     dict_get fields2 "spot" = spot →
     reserve e2 r2 st' =
       (st', inr (Response (ErrorBody "Selected spot is no longer available")
                    400 headers))).
Proof.
  intros Hj Hrun.
  destruct (reserve_cases e r st)
    as [(resp & Hq & _ & Hshape) |
        (fields' & available & chosen & Hacc & _ &
         [(msg & _ & Hp) | [_ Hp]])];
    rewrite Hrun in *.
  { injection Hq as _ <-. simpl in Hshape.
    by destruct Hshape as [[? _] | [(? & ? & _) | (? & ? & ? & ? & _)]]. }
  { by injection Hp. }
  injection Hp as -> -> -> -> ->.
  pose proof Hacc as (_ & Hj' & Hz & Hd & _).
  rewrite Hj in Hj'. injection Hj' as <-.
  destruct (accepted_free _ _ _ _ _ _ Hacc)
    as (z & limit & s & Hzv & Hl & -> & _ & Hu & _ & _).
  pose proof (universe_truthy z limit s Hl Hu) as Ht.
  assert (∀ topic', reserved (State (written e st fields (VStr s)) topic')
                      (dict_get fields "zone") (dict_get fields "date")
                      (VStr s)) as Hres.
  { intros topic'. exists (auto_id e), (reservation_data e
      (dict_get fields "zone") (VStr s) (dict_get fields "date")
      (dict_get fields "email")).
    split; [apply lookup_insert_eq|].
    destruct (reservation_data_lookup e (dict_get fields "zone") (VStr s)
                (dict_get fields "date") (dict_get fields "email"))
      as (? & ? & ? & _). done. }
  assert (∀ e2 available',
            get_available_spots e2 (dict_get fields "zone")
              (dict_get fields "date")
              (State (written e st fields (VStr s))
                 (topic st ++ [notification e fields (VStr s)]))
            = (State (written e st fields (VStr s))
                 (topic st ++ [notification e fields (VStr s)]),
               inr available') →
            value_in (VStr s) available' = false) as Hgone.
  { intros e2 available' Ha. apply not_true_is_false.
    rewrite value_in_str.
    by apply (reserved_not_available e2 _ _ _ _ _ (Hres _) Ha). }
  split; [done|].
  intros e2 r2 fields2 Hm2 Hj2 Hz2 Hd2 He2 Hs2.
  destruct (get_available_spots_total e2
              (State (written e st fields (VStr s))
                 (topic st ++ [notification e fields (VStr s)]))
              (dict_get fields "zone") (dict_get fields "date"))
    as [available' Ha].
  apply (post_early e2 r2 _ fields2 Hm2 Hj2) with (available := available').
  - by rewrite Hz2.
  - by rewrite Hd2.
  - done.
  - by rewrite Hz2, Hd2.
  - unfold choose_spot. rewrite Hs2, Ht.
    by rewrite (Hgone e2 available' Ha).
Qed.

Lemma reserved_spot_is_gone_witness :
  reserve later (post ask_A1)
    (reserve all_up (post ask_any) zone_B_only).1 =
    ((reserve all_up (post ask_any) zone_B_only).1,
     inr (Response (ErrorBody "Selected spot is no longer available")
            400 headers)).
Proof.
  refine (proj2 (reserved_spot_is_gone all_up (post ask_any) zone_B_only
                   (reserve all_up (post ask_any) zone_B_only).1
                   ask_any (VStr "A1") (auto_id all_up) 200 headers _ _)
            later (post ask_A1) ask_A1 _ _ _ _ _ _);
    vm_compute; reflexivity.
Defined.

(** X10: a requested spot that is not one of the zone's [Z1 .. Zlimit] (a
    spot of another zone, a number beyond the capacity, another spelling) is
    never accepted: the POST is answered with the 400 "Selected spot is no
    longer available" whatever the store holds. *)
Theorem reserve_spot_outside_universe e r st fields z limit :
  method r = "POST" →
  json r = Some fields →
  dict_get fields "zone" = VStr z →
  zone_limits !! z = Some limit →
  truthy (dict_get fields "date") = true →
  truthy (dict_get fields "email") = true →
  truthy (dict_get fields "spot") = true →
  (∀ s, dict_get fields "spot" = VStr s → s ∉ universe (VStr z) limit) →
  reserve e r st =
    (st, inr (Response (ErrorBody "Selected spot is no longer available")
                400 headers)).
Proof.
  intros Hm Hj Hz Hl Hd He Hs Hout.
  assert (valid_zone (dict_get fields "zone")) as Hv.
  { rewrite Hz. apply zone_limits_lookup in Hl. unfold valid_zone.
    destruct Hl as [[-> _] | [[-> _] | [-> _]]]; auto. }
  destruct (get_available_spots_total e st (dict_get fields "zone")
              (dict_get fields "date")) as [available Ha].
  apply (post_early e r st fields Hm Hj Hv Hd He available Ha).
  unfold choose_spot. rewrite Hs.
  destruct (value_in (dict_get fields "spot") available) eqn:Hin; [|done].
  unfold value_in in Hin. apply bool_decide_eq_true in Hin.
  apply list_elem_of_fmap in Hin as (s & Hspot & Hin).
  rewrite Hz in Ha.
  destruct (available_in_universe e st z _ limit available s Hl Ha Hin)
    as [Hu _].
  by destruct (Hout s Hspot).
Qed.

Lemma reserve_spot_outside_universe_witness :
  reserve all_up (post ask_A56) zone_B_only =
    (zone_B_only,
     inr (Response (ErrorBody "Selected spot is no longer available")
            400 headers)).
Proof.
  apply (reserve_spot_outside_universe all_up (post ask_A56) zone_B_only
           ask_A56 "A" 55); try reflexivity.
  intros s [= <-]. refine (bool_decide_eq_false_1 _ _). vm_compute. reflexivity.
Defined.

(** ** Failing writes, listings and routing *)



(** X12: a GET on the available-spots path reads and never writes.  With a
    non-empty zone and date it is answered with a 200 that carries exactly
    the list [get_available_spots] returns and echoes the zone and date;
    with the zone or the date missing or empty it is answered with the 400
    "Missing zone or date parameter".  The state is unchanged either way. *)
Theorem reserve_get_listing e r st :
  method r = "GET" →
  endswith (path r) "/available-spots" = true →
  (∀ zone date,
     args r !! "zone" = Some zone → args r !! "date" = Some date →
     zone ≠ "" → date ≠ "" →
     ∃ available,
       get_available_spots e (VStr zone) (VStr date) st = (st, inr available) ∧
       reserve e r st =
         (st, inr (Response (SpotsBody available (VStr zone) (VStr date))
                     200 headers))) ∧
  (args r !! "zone" = None ∨ args r !! "zone" = Some "" ∨
   args r !! "date" = None ∨ args r !! "date" = Some "" →
   reserve e r st =
     (st, inr (Response (ErrorBody "Missing zone or date parameter")
                 400 headers))).
Proof.
  intros Hm Hp. split.
  - intros zone date Hz Hd Hzne Hdne.
    destruct (get_available_spots_total e st (VStr zone) (VStr date))
      as [available Ha].
    exists available. split; [done|].
    unfold reserve. rewrite Hm, Hp. simpl.
    unfold reserve_get, args_get. rewrite Hz, Hd. simpl.
    apply String.eqb_neq in Hzne, Hdne. rewrite Hzne, Hdne. simpl.
    apply try_ok. by rewrite (bind_ok _ _ _ _ _ Ha).
  - intros H. unfold reserve. rewrite Hm, Hp. simpl.
    unfold reserve_get, args_get.
    destruct H as [-> | [-> | [-> | ->]]]; simpl; try done;
      by rewrite orb_true_r.
Qed.

Lemma reserve_get_listing_witness :
  ∃ available,
    get_available_spots all_up (VStr "A") (VStr "2024-06-01") one_cancelled
      = (one_cancelled, inr available) ∧
    reserve all_up get_listing one_cancelled =
      (one_cancelled,
       inr (Response (SpotsBody available (VStr "A") (VStr "2024-06-01"))
              200 headers)).
Proof.
  apply (proj1 (reserve_get_listing all_up get_listing one_cancelled
                  eq_refl eq_refl) "A" "2024-06-01");
    try reflexivity; discriminate.
Defined.

(** [endswith] is the suffix test. *)
Lemma substring_whole s : String.substring 0 (String.length s) s = s.
Proof. induction s as [|c s IH]; [done|]. simpl. by rewrite IH. Qed.

Lemma substring_skip p s m :
  String.substring (String.length p) m (p +:+ s) = String.substring 0 m s.
Proof. induction p as [|c p IH]; [done|]. simpl. by rewrite IH. Qed.

Lemma length_append p s :
  String.length (p +:+ s) = (String.length p + String.length s)%nat.
Proof. induction p as [|c p IH]; [done|]. simpl. by rewrite IH. Qed.

Lemma substring_split s k :
  (k ≤ String.length s)%nat →
  s = String.substring 0 k s +:+
      String.substring k (String.length s - k) s.
Proof.
  revert k. induction s as [|c s IH]; intros k Hk.
  - by destruct k.
  - destruct k as [|k]; simpl.
    + by rewrite substring_whole.
    + simpl in Hk. rewrite (IH k) at 1 by lia. reflexivity.
Qed.

Lemma endswith_suffix s suffix :
  endswith s suffix = true ↔ ∃ p, s = p +:+ suffix.
Proof.
  unfold endswith. rewrite andb_true_iff, Nat.leb_le, String.eqb_eq. split.
  - intros [Hle Hsub]. exists (String.substring 0
                                 (String.length s - String.length suffix) s).
    rewrite <- Hsub at 2.
    rewrite (substring_split s (String.length s - String.length suffix))
      at 1 by lia.
    do 2 f_equal. lia.
  - intros [p ->]. rewrite length_append. split; [lia|].
    replace (String.length p + String.length suffix - String.length suffix)%nat
      with (String.length p) by lia.
    by rewrite substring_skip, substring_whole.
Qed.

(** X13: the routing of requests.  A GET is a listing exactly when its path
    is some prefix followed by "/available-spots"; a request that is neither
    OPTIONS, nor such a GET, nor a POST is answered with the 405 "Method not
    allowed" and changes nothing, so a GET on any other path is a 405. *)
Theorem reserve_routing e r st :
  (method r = "GET" → (∃ p, path r = p +:+ "/available-spots") →
   reserve e r st = reserve_get e r st) ∧
  (method r ≠ "OPTIONS" → method r ≠ "POST" →
   (method r = "GET" → ¬ ∃ p, path r = p +:+ "/available-spots") →
   reserve e r st =
     (st, inr (Response (ErrorBody "Method not allowed") 405 headers))).
Proof.
  split.
  - intros Hm Hp%endswith_suffix. unfold reserve. by rewrite Hm, Hp.
  - intros Ho Hpost Hget. unfold reserve.
    apply String.eqb_neq in Ho, Hpost. rewrite Ho, Hpost.
    destruct (String.eqb (method r) "GET") eqn:Hg; [|done].
    apply String.eqb_eq in Hg.
    destruct (endswith (path r) "/available-spots") eqn:Hp; [|done].
    apply endswith_suffix in Hp. by destruct (Hget Hg).
Qed.

Lemma reserve_routing_witness :
  reserve all_up get_elsewhere zone_B_only =
    (zone_B_only,
     inr (Response (ErrorBody "Method not allowed") 405 headers)) ∧
  reserve all_up get_listing zone_B_only =
    reserve_get all_up get_listing zone_B_only.
Proof.
  split.
  - apply (proj2 (reserve_routing all_up get_elsewhere zone_B_only));
      try discriminate.
    intros _ Hp%endswith_suffix. vm_compute in Hp. discriminate.
  - apply (proj1 (reserve_routing all_up get_listing zone_B_only));
      [reflexivity|]. by exists "/reserve".
Defined.

(** ** Counting and framing *)



Lemma used_insert_other e st fields spot topic' zone date :
  db st !! auto_id e = None →
  (zone, date) ≠ (dict_get fields "zone", dict_get fields "date") →
  used (State (written e st fields spot) topic') zone date
    = used st zone date.
Proof.
  intros Hfresh Hother. apply set_eq. intros v. rewrite !elem_of_used. split.
  - intros (id & d & Hd & Hz & Hda & Hs). simpl in Hd. unfold written in Hd.
    apply lookup_insert_Some in Hd as [[_ <-] | [_ Hd]].
    + destruct (reservation_data_lookup e (dict_get fields "zone") spot
                  (dict_get fields "date") (dict_get fields "email"))
        as (Ez & _ & Ed & _).
      rewrite Ez in Hz. rewrite Ed in Hda.
      injection Hz as <-. injection Hda as <-. done.
    + by exists id, d.
  - intros (id & d & Hd & Hz & Hda & Hs). exists id, d.
    split; [|done]. simpl. unfold written. rewrite lookup_insert_ne; [done|].
    intros <-. by rewrite Hfresh in Hd.
Qed.

(** X15: a reservation touches the availability of its own zone and date
    only.  When the handler has answered with the success response and the
    generated id was not yet in use, the lookup for any other zone or date
    returns the same list after as before. *)
Theorem reserve_frames_other_lookups e r st st' fields spot id status hdrs :
  json r = Some fields →
  db st !! auto_id e = None →
  reserve e r st = (st', inr (Response (SuccessBody spot id) status hdrs)) →
  ∀ e2 zone date,
    (zone, date) ≠ (dict_get fields "zone", dict_get fields "date") →
    (get_available_spots e2 zone date st').2
      = (get_available_spots e2 zone date st).2.
Proof.
  intros Hj Hfresh Hrun e2 zone date Hother.
  destruct (reserve_cases e r st)
    as [(resp & Hq & _ & Hshape) |
        (fields' & available & chosen & Hacc & _ &
         [(msg & _ & Hp) | [_ Hp]])];
    rewrite Hrun in *.
  { injection Hq as _ <-. simpl in Hshape.
    by destruct Hshape as [[? _] | [(? & ? & _) | (? & ? & ? & ? & _)]]. }
  { by injection Hp. }
  injection Hp as -> -> -> -> ->.
  destruct Hacc as (_ & Hj' & _). rewrite Hj in Hj'. injection Hj' as <-.
  rewrite !get_available_spots_result.
  by rewrite (used_insert_other e st fields chosen _ zone date Hfresh Hother).
Qed.

Lemma reserve_frames_other_lookups_witness :
  (get_available_spots later (VStr "B") (VStr "2024-06-01")
     (reserve all_up (post ask_any) zone_B_only).1).2
  = (get_available_spots later (VStr "B") (VStr "2024-06-01") zone_B_only).2.
Proof.
  apply (reserve_frames_other_lookups all_up (post ask_any) zone_B_only
           (reserve all_up (post ask_any) zone_B_only).1 ask_any
           (VStr "A1") (auto_id all_up) 200 headers);
    try (vm_compute; reflexivity).
  vm_compute. discriminate.
Defined.

(** ** Every run of the dispatcher *)

Section dispatcher_runs.
Import Dispatcher.

Lemma credential_steps_run w tr :
  (download w ≫= refresh_if_expired w) tr =
    (tr ++ (credential_steps w).1, (credential_steps w).2).
Proof.
  unfold mbind, M_bind, download, refresh_if_expired, credential_steps.
  destruct (download_fault w); [done|].
  destruct (stored w) as [c|]; [|done].
  destruct (expired c && truthy (refresh_token c)); [|done].
  unfold mbind, M_bind, refresh.
  destruct (refresh_fault w); simpl; by rewrite <- app_assoc.
Qed.

(** The calls of the credential steps start with the download, hold at most
    one refresh after it, and hold no submission. *)
Lemma credential_steps_calls w :
  (credential_steps w).1 = [Download] ∨
  ∃ c, stored w = Some c ∧ expired c = true ∧
       truthy (refresh_token c) = true ∧
       (credential_steps w).1 = [Download; Refresh c].
Proof.
  unfold credential_steps. destruct (download_fault w); [by left|].
  destruct (stored w) as [c|]; [|by left].
  destruct (expired c && truthy (refresh_token c)) eqn:Hc; [|by left].
  apply andb_true_iff in Hc as [? ?].
  right. exists c. by destruct (refresh_fault w).
Qed.

(** A message that does not decode, or that lacks a field, is given up
    before any call. *)
Lemma send_email_malformed w ev tr :
  (decoded ev = None →
   send_email w ev tr =
     (tr, inl (DecodeError "cannot decode the Pub/Sub message"))) ∧
  (∀ email_data,
     decoded ev = Some email_data →
     (∃ key, key ∈ message_fields ∧ email_data !! key = None) →
     ∃ missing, missing ∈ message_fields ∧ email_data !! missing = None ∧
                send_email w ev tr = (tr, inl (KeyError (VStr missing)))).
Proof.
  unfold message_fields. split.
  - intros Hd. unfold send_email, try_except, mbind, M_bind, decode.
    by rewrite Hd.
  - intros email_data Hd (key & Hkey & Hnone).
    unfold send_email, try_except, mbind, M_bind, decode, subscript.
    rewrite Hd. simpl.
    destruct (email_data !! "to") as [to|] eqn:Hto.
    2:{ exists "to". rewrite !elem_of_cons. auto. }
    simpl. destruct (email_data !! "subject") as [subject|] eqn:Hsu.
    2:{ exists "subject". rewrite !elem_of_cons. auto. }
    simpl. destruct (email_data !! "message") as [message|] eqn:Hme.
    2:{ exists "message". rewrite !elem_of_cons. auto. }
    rewrite !elem_of_cons, elem_of_nil in Hkey.
    destruct Hkey as [-> | [-> | [-> | []]]]; congruence.
Qed.

(** A message with its three fields runs the credential steps; it is then
    submitted if its text is a string, and given up with an attribute error
    otherwise. *)
Lemma send_email_well_formed w ev email_data to subject message tr :
  decoded ev = Some email_data →
  email_data !! "to" = Some to →
  email_data !! "subject" = Some subject →
  email_data !! "message" = Some message →
  send_email w ev tr =
    match (credential_steps w).2, message with
    | inl ex, _ => (tr ++ (credential_steps w).1, inl ex)
    | inr creds, VStr text =>
        (tr ++ (credential_steps w).1 ++ [Send creds (rendered to subject text)],
         mail_outcome w creds (rendered to subject text))
    | inr creds, _ =>
        (tr ++ (credential_steps w).1,
         inl (AttributeError
                ("'" +:+ type_name message +:+
                 "' object has no attribute 'encode'")))
    end.
Proof.
  intros Hd Hto Hsu Hme.
  assert (send_email w ev tr =
          try_except
            (creds ← (download w ≫= refresh_if_expired w);
             mime_message ← render to subject message;
             send_result ← send w creds mime_message;
             subscript send_result (VStr "id");;
             mret tt)
            (λ ex, raise ex) tr) as ->.
  { unfold send_email, try_except, mbind, M_bind, decode, subscript.
    rewrite Hd. simpl. rewrite Hto. simpl. rewrite Hsu. simpl.
    rewrite Hme. simpl. destruct (download w tr) as [tr' [ex|creds]]; [done|].
    by destruct (refresh_if_expired w creds tr') as [tr'' [ex|creds']]. }
  unfold try_except. unfold mbind at 1. unfold M_bind at 1.
  rewrite credential_steps_run.
  destruct (credential_steps w).2 as [ex|creds]; [done|].
  unfold mbind, M_bind, render, send, subscript, mail_outcome, rendered, raise.
  destruct message; simpl; try done.
  destruct (mail_api w creds _) as [msg|send_result]; simpl.
  - by rewrite <- app_assoc.
  - destruct (send_result !! "id"); simpl; by rewrite <- app_assoc.
Qed.

End dispatcher_runs.

Section dispatcher_properties.
Import Dispatcher.

Lemma well_formed_fields ev :
  ¬ malformed ev →
  ∃ email_data to subject message,
    decoded ev = Some email_data ∧ email_data !! "to" = Some to ∧
    email_data !! "subject" = Some subject ∧
    email_data !! "message" = Some message.
Proof.
  intros Hwf. destruct (decoded ev) as [d|] eqn:Hd; [|by destruct Hwf; left].
  assert (∀ key, key ∈ message_fields → is_Some (d !! key)) as Hkeys.
  { intros key Hkey. destruct (d !! key) eqn:Hk; [by eexists|].
    destruct Hwf. right. by exists d, key. }
  unfold message_fields in Hkeys.
  destruct (Hkeys "to") as [to Hto]; [rewrite !elem_of_cons; auto|].
  destruct (Hkeys "subject") as [su Hsu]; [rewrite !elem_of_cons; auto|].
  destruct (Hkeys "message") as [me Hme]; [rewrite !elem_of_cons; auto|].
  by exists d, to, su, me.
Qed.

Lemma malformed_dec ev : malformed ev ∨ ¬ malformed ev.
Proof.
  unfold malformed, message_fields.
  destruct (decoded ev) as [d|]; [|by left; left].
  destruct (d !! "to") eqn:Hto.
  2:{ left. right. exists d, "to". rewrite !elem_of_cons. auto 10. }
  destruct (d !! "subject") eqn:Hsu.
  2:{ left. right. exists d, "subject". rewrite !elem_of_cons. auto 10. }
  destruct (d !! "message") eqn:Hme.
  2:{ left. right. exists d, "message". rewrite !elem_of_cons. auto 10. }
  right. intros [? | (d' & key & [= <-] & Hkey & Hnone)]; [done|].
  rewrite !elem_of_cons, elem_of_nil in Hkey.
  destruct Hkey as [-> | [-> | [-> | []]]]; congruence.
Qed.

(** The calls and the outcome of a run do not depend on the calls made
    before it, and the calls are those of one attempt. *)
Lemma send_email_uniform w ev :
  ∃ calls out,
    (∀ tr, send_email w ev tr = (tr ++ calls, out)) ∧ one_attempt calls.
Proof.
  destruct (malformed_dec ev) as [Hbad | Hgood].
  - exists []. destruct Hbad as [Hd | (d & key & Hd & Hkey & Hnone)].
    + eexists. split; [|by left]. intros tr. rewrite app_nil_r.
      by apply send_email_malformed.
    + destruct (proj2 (send_email_malformed w ev []) d Hd)
        as (missing & Hm & Hn & _); [by exists key|].
      assert (∃ out, ∀ tr, send_email w ev tr = (tr, out)) as [out Hout].
      { unfold send_email, try_except, mbind, M_bind, decode, subscript.
        rewrite Hd. simpl. unfold message_fields in Hkey.
        destruct (d !! "to") eqn:Hto; [|by eexists]. simpl.
        destruct (d !! "subject") eqn:Hsu; [|by eexists]. simpl.
        destruct (d !! "message") eqn:Hme; [|by eexists].
        rewrite !elem_of_cons, elem_of_nil in Hkey.
        destruct Hkey as [-> | [-> | [-> | []]]]; congruence. }
      exists out. split; [|by left]. intros tr. by rewrite app_nil_r.
  - destruct (well_formed_fields ev Hgood)
      as (d & to & subject & message & Hd & Hto & Hsu & Hme).
    pose proof (send_email_well_formed w ev d to subject message) as Hrun.
    destruct (credential_steps_calls w) as [Hc | (c & _ & _ & _ & Hc)];
      rewrite Hc in Hrun;
      destruct (credential_steps w).2 as [ex|creds].
    + eexists _, _. split; [intros tr; by apply Hrun|]. by right; left.
    + destruct message; try (eexists _, _; split;
        [intros tr; by apply Hrun|by right; left]).
      eexists _, _. split; [intros tr; by apply Hrun|].
      right. right. right. left. by eexists _, _.
    + eexists _, _. split; [intros tr; by apply Hrun|].
      right. right. left. by eexists.
    + destruct message; try (eexists _, _; split;
        [intros tr; by apply Hrun|right; right; left; by eexists]).
      eexists _, _. split; [intros tr; by apply Hrun|].
      right. right. right. right. by eexists _, _, _.
Qed.

(** X16: the dispatcher never retries.  In one run it makes at most the
    download, then at most one refresh, then at most one submission to the
    mail API, whatever the message and whatever the outside answers. *)
Theorem send_email_one_attempt w ev tr :
  ∃ calls, (send_email w ev tr).1 = tr ++ calls ∧ one_attempt calls.
Proof.
  destruct (send_email_uniform w ev) as (calls & out & Hrun & Hshape).
  exists calls. by rewrite Hrun.
Qed.


(** X18: a message that does not decode or lacks one of [to], [subject]
    and [message] is given up before the bucket or the mail API is touched:
    the run raises the decoding error, or the [KeyError] of a missing
    field, and makes no call.  Every other message leads to the download. *)
Theorem send_email_malformed_message w ev tr :
  (malformed ev →
   (send_email w ev tr).1 = tr ∧
   ((send_email w ev tr).2
      = inl (DecodeError "cannot decode the Pub/Sub message") ∨
    ∃ email_data missing,
      decoded ev = Some email_data ∧ missing ∈ message_fields ∧
      email_data !! missing = None ∧
      (send_email w ev tr).2 = inl (KeyError (VStr missing)))) ∧
  (¬ malformed ev → Download ∈ (send_email w ev tr).1).
Proof.
  split.
  - intros [Hd | (d & key & Hd & Hkey & Hnone)].
    + rewrite (proj1 (send_email_malformed w ev tr) Hd). auto.
    + destruct (proj2 (send_email_malformed w ev tr) d Hd)
        as (missing & Hm & Hn & ->); [by exists key|].
      split; [done|]. right. by exists d, missing.
  - intros (d & to & subject & message & Hd & Hto & Hsu & Hme)%well_formed_fields.
    rewrite (send_email_well_formed w ev d to subject message tr) by done.
    assert (Download ∈ (credential_steps w).1) as Hdl.
    { destruct (credential_steps_calls w) as [-> | (c & _ & _ & _ & ->)];
        apply list_elem_of_here. }
    destruct (credential_steps w).2 as [ex|creds]; simpl.
    + rewrite elem_of_app. auto.
    + destruct message; simpl; rewrite !elem_of_app; auto.
Qed.

Lemma send_email_malformed_message_witness :
  (send_email unexpired_world event_without_subject []).1 = [] ∧
  Download ∈ (send_email unexpired_world confirmation_event []).1.
Proof.
  split.
  - apply (proj1 (send_email_malformed_message unexpired_world
                    event_without_subject [])).
    right. eexists _, "subject". split; [reflexivity|].
    split; [|reflexivity]. apply list_elem_of_further, list_elem_of_here.
  - apply (proj2 (send_email_malformed_message unexpired_world
                    confirmation_event [])).
    intros [H | (d & key & [= <-] & Hkey & Hnone)]; [discriminate|].
    unfold message_fields in Hkey.
    rewrite !elem_of_cons, elem_of_nil in Hkey.
    destruct Hkey as [-> | [-> | [-> | []]]]; vm_compute in Hnone;
      discriminate.
Defined.

End dispatcher_properties.

Section dispatcher_failures.
Import Dispatcher.

Lemma credential_steps_no_send w :
  Download ∈ (credential_steps w).1 ∧
  ∀ creds m, Send creds m ∉ (credential_steps w).1.
Proof.
  destruct (credential_steps_calls w) as [-> | (c & _ & _ & _ & ->)].
  - split; [apply list_elem_of_here|]. intros creds m Hin.
    apply list_elem_of_singleton in Hin. discriminate.
  - split; [apply list_elem_of_here|]. intros creds m Hin.
    rewrite !elem_of_cons, elem_of_nil in Hin.
    destruct Hin as [? | [? | []]]; discriminate.
Qed.

(** X19: when the download of the credential raises, the run ends with
    that error right after the download: nothing is refreshed and nothing is
    submitted, whatever the three fields of the message hold. *)
Theorem send_email_download_failure w ev tr msg :
  ¬ malformed ev →
  download_fault w = Some msg →
  send_email w ev tr = (tr ++ [Download], inl (UpstreamError msg)).
Proof.
  intros (d & to & subject & message & Hd & Hto & Hsu & Hme)%well_formed_fields
    Hf.
  rewrite (send_email_well_formed w ev d to subject message tr) by done.
  unfold credential_steps. by rewrite Hf.
Qed.

Lemma send_email_download_failure_witness :
  send_email bucket_down event_with_number [] =
    ([Download], inl (UpstreamError "503 storage unavailable")).
Proof.
  apply (send_email_download_failure bucket_down event_with_number []
           "503 storage unavailable"); [|reflexivity].
  intros [H | (d & key & [= <-] & Hkey & Hnone)]; [discriminate|].
  unfold message_fields in Hkey.
  rewrite !elem_of_cons, elem_of_nil in Hkey.
  destruct Hkey as [-> | [-> | [-> | []]]]; vm_compute in Hnone; discriminate.
Defined.

(** X20: a message whose [message] field is not a string is never
    submitted.  The text is rendered only after the credential steps, so the
    run first downloads, and possibly refreshes, the credential and then
    ends with the attribute error that names the type of the field, or with
    the error of a failing credential step. *)
Theorem send_email_text_not_a_string w ev email_data to subject message tr :
  decoded ev = Some email_data →
  email_data !! "to" = Some to →
  email_data !! "subject" = Some subject →
  email_data !! "message" = Some message →
  (∀ text, message ≠ VStr text) →
  ∃ calls ex,
    send_email w ev tr = (tr ++ calls, inl ex) ∧
    Download ∈ calls ∧
    (∀ creds m, Send creds m ∉ calls) ∧
    ((∃ msg, ex = UpstreamError msg) ∨
     ex = AttributeError
            ("'" +:+ type_name message +:+
             "' object has no attribute 'encode'")).
Proof.
  intros Hd Hto Hsu Hme Hns.
  rewrite (send_email_well_formed w ev email_data to subject message tr)
    by done.
  destruct (credential_steps_no_send w) as [Hdl Hno].
  assert (∀ ex', (credential_steps w).2 = inl ex' → ∃ msg, ex' = UpstreamError msg)
    as Hup.
  { unfold credential_steps. intros ex'.
    destruct (download_fault w); [intros [= <-]; eauto|].
    destruct (stored w) as [c|]; [|done].
    destruct (expired c && truthy (refresh_token c)); [|done].
    destruct (refresh_fault w); [intros [= <-]; eauto|done]. }
  destruct (credential_steps w).2 as [ex|creds] eqn:Hsteps.
  - exists (credential_steps w).1, ex. destruct (Hup ex eq_refl) as [msg ->].
    split; [done|]. split; [done|]. split; [done|]. left. eauto.
  - destruct message; try by (eexists _, _; split; [done|auto]).
    by destruct (Hns s).
Qed.

Lemma send_email_text_not_a_string_witness :
  send_email refreshable_world event_with_number [] =
    ([Download; Refresh refreshable],
     inl (AttributeError "'int' object has no attribute 'encode'")).
Proof.
  destruct (send_email_text_not_a_string refreshable_world event_with_number
              (email_payload (VStr "u@example.com")
                 (VStr "Parking Reservation Confirmation") (VInt 42))
              (VStr "u@example.com")
              (VStr "Parking Reservation Confirmation") (VInt 42) []
              eq_refl eq_refl eq_refl eq_refl)
    as (calls & ex & Hrun & _); [discriminate|].
  rewrite Hrun. vm_compute in Hrun. by injection Hrun as <- <-.
Defined.

(** X21: the run reports success only for a message the mail API has
    accepted.  If [send_email] returns without raising, the message had its
    three fields with a string as text, the last call of the run was the
    submission of the email rendered from them, from the fixed sender, the
    mail API answered it with a result that carries an [id], and no other
    submission was made. *)
Theorem send_email_success_was_submitted w ev tr tr' :
  send_email w ev tr = (tr', inr tt) →
  ∃ email_data to subject text creds before send_result,
    decoded ev = Some email_data ∧
    email_data !! "to" = Some to ∧
    email_data !! "subject" = Some subject ∧
    email_data !! "message" = Some (VStr text) ∧
    tr' = tr ++ before ++ [Send creds (rendered to subject text)] ∧
    (∀ creds' m, Send creds' m ∉ before) ∧
    mail_api w creds (rendered to subject text) = inr send_result ∧
    is_Some (send_result !! "id").
Proof.
  intros Hrun.
  destruct (malformed_dec ev) as [Hbad | Hgood].
  { destruct Hbad as [Hd | (d & key & Hd & Hkey & Hnone)].
    - rewrite (proj1 (send_email_malformed w ev tr) Hd) in Hrun.
      discriminate.
    - destruct (proj2 (send_email_malformed w ev tr) d Hd)
        as (missing & _ & _ & Heq); [by exists key|].
      rewrite Heq in Hrun. discriminate. }
  destruct (well_formed_fields ev Hgood)
    as (d & to & subject & message & Hd & Hto & Hsu & Hme).
  rewrite (send_email_well_formed w ev d to subject message tr) in Hrun
    by done.
  destruct (credential_steps_no_send w) as [_ Hno].
  destruct (credential_steps w).2 as [ex|creds]; [discriminate|].
  destruct message; try discriminate.
  injection Hrun as <- Hout. unfold mail_outcome in Hout.
  destruct (mail_api w creds (rendered to subject s)) as [msg|send_result]
    eqn:Hapi; [discriminate|].
  destruct (send_result !! "id") eqn:Hid; [|discriminate].
  exists d, to, subject, s, creds, (credential_steps w).1, send_result.
  repeat (split; [done|]). by rewrite Hid.
Qed.

Lemma send_email_success_was_submitted_witness :
  ∃ email_data to subject text creds before send_result,
    decoded confirmation_event = Some email_data ∧
    email_data !! "to" = Some to ∧
    email_data !! "subject" = Some subject ∧
    email_data !! "message" = Some (VStr text) ∧
    (send_email unexpired_world confirmation_event []).1
      = [] ++ before ++ [Send creds (rendered to subject text)] ∧
    (∀ creds' m, Send creds' m ∉ before) ∧
    mail_api unexpired_world creds (rendered to subject text) = inr send_result ∧
    is_Some (send_result !! "id").
Proof.
  apply (send_email_success_was_submitted unexpired_world confirmation_event []).
  vm_compute. reflexivity.
Defined.



End dispatcher_failures.

(** ** From the reservation to the email *)


